(** * InterviewAgent: the turn-taking core, embedded and verified

    A shallow embedding of the orchestration code of the voice interview
    agent:

    - [audio_utils.py]     the silence-terminated recorder   (Modules [Recorder],
                                                               [Recorder64])
    - [llm_groq.py]        the interview state machine        (Module [LLM])
    - [tts_deepgram.py]    the voice table and its selection  (Module [TTS])
    - [interview_agent.py] the interactive loop               (Module [Agent])
    - [main.py]            the session registry and endpoints (Module [Server])

    Conventions.  Python [str] values are Rocq strings, a character being its
    code point in 0..255.  Python [int] is [Z].  The three remote services
    (transcription, chat completion, speech synthesis) are not part of the
    program: every function that calls one takes the value the service
    returned as an extra argument, so a model function describes a call that
    returned.  Where a call that raises leaves something behind, a function
    of its own says what ([LLM.respond_raised],
    [Server.respond_to_audio_attempt]).  Mutable objects are passed and
    returned explicitly.  The recorder comes twice: on exact rationals
    ([Recorder]) and with the binary64 arithmetic of the code
    ([Recorder64]). *)

From Stdlib Require Import ZArith QArith Qround Lia Bool Ascii.
From Stdlib Require SpecFloat.
From stdpp Require Import gmap strings list.

Local Open Scope Z_scope.

(* ===================================================================== *)
(** * Text: the [str] operations the code relies on                      *)
(* ===================================================================== *)

Module Text.

(** [c.lower()] on one character (code points below 256: A-Z and the
    Latin-1 capitals, the multiplication sign 215 excepted). *)
Definition lower_char (c : ascii) : ascii :=
  let n := N_of_ascii c in
  if ((65 <=? n) && (n <=? 90))%N then ascii_of_N (n + 32)
  else if ((192 <=? n) && (n <=? 222) && negb (n =? 215))%N
       then ascii_of_N (n + 32)
  else c.

(** [s.lower()] *)
Fixpoint lower (s : string) : string :=
  match s with
  | EmptyString => EmptyString
  | String c s' => String (lower_char c) (lower s')
  end.

(** [c.isspace()] on one character. *)
Definition is_space (c : ascii) : bool :=
  let n := N_of_ascii c in
  (((9 <=? n) && (n <=? 13)) || ((28 <=? n) && (n <=? 32))
   || (n =? 133) || (n =? 160))%N.

Fixpoint lstrip (s : string) : string :=
  match s with
  | EmptyString => EmptyString
  | String c s' => if is_space c then lstrip s' else s
  end.

Fixpoint rstrip (s : string) : string :=
  match s with
  | EmptyString => EmptyString
  | String c s' =>
      match rstrip s' with
      | EmptyString => if is_space c then EmptyString else String c EmptyString
      | r => String c r
      end
  end.

(** [s.strip()] *)
Definition strip (s : string) : string := rstrip (lstrip s).

(** [s.startswith(p)] *)
Fixpoint starts_with (p s : string) : bool :=
  match p, s with
  | EmptyString, _ => true
  | String _ _, EmptyString => false
  | String a p', String b s' => if Ascii.eqb a b then starts_with p' s' else false
  end.

(** [p in s] : substring containment. *)
Fixpoint contains (p s : string) : bool :=
  starts_with p s ||
  match s with
  | EmptyString => false
  | String _ s' => contains p s'
  end.

(** [any(p in s for p in ps)] *)
Definition any_in (ps : list string) (s : string) : bool :=
  existsb (fun p => contains p s) ps.

(** [bool(s)] : a string is truthy when it is not empty. *)
Definition truthy (s : string) : bool :=
  match s with EmptyString => false | _ => true end.

(** The relation the boolean test decides. *)
Definition Substring (p s : string) : Prop :=
  exists pre post, s = pre +:+ p +:+ post.

End Text.

(** A Python dict [{"role": ..., "content": ...}]: an element of the chat
    history, of a chat request, or of a transcript. *)
Record message := Message { role : string; content : string }.

(** What a call that can raise gives back. *)
Inductive exn :=
| ValueError (msg : string)
| HTTPException (status_code : Z) (detail : string).

Inductive result (A : Type) :=
| Ok (a : A)
| Raise (e : exn).
Arguments Ok {A} a.
Arguments Raise {A} e.

(* ===================================================================== *)
(** * config.py                                                          *)
(* ===================================================================== *)

Module Config.

Definition GROQ_LLM_MODEL : string := "llama-3.3-70b-versatile".
Definition DEEPGRAM_TTS_MODEL : string := "aura-asteria-en".
Definition AUDIO_SAMPLE_RATE : Z := 16000.

End Config.

(* ===================================================================== *)
(** * llm_groq.py : the interview state machine                          *)
(* ===================================================================== *)

Module LLM.
Import Text.

Definition INTERVIEW_SYSTEM_PROMPT : string :=
"You are an expert technical interviewer conducting a professional job interview via voice.

Your role:
- Conduct a natural, flowing conversation
- Ask clear questions and engage with their answers
- Ask follow-up questions when answers are interesting or need clarification
- Be professional but personable

Interview structure:
- Start with a warm greeting and introduce yourself briefly
- Ask about their background and experience (1 main question area)
- Ask 2-3 technical/behavioral questions based on the role
- Dig deeper with follow-ups when appropriate
- After covering 3-5 main topic areas with good discussion, naturally wrap up

Speaking style:
- Keep responses SHORT and conversational (2-3 sentences max)
- This is SPOKEN conversation, not written
- Respond with ONLY what you want to say - NO JSON, NO formatting
- Sound natural, like a real person talking".

(** The fields of a [GroqLLM] object ([client] is the remote service). *)
Record GroqLLM := MkLLM {
  model : string;
  conversation_history : list message;
  question_count : Z;
  main_questions_asked : Z;
  interview_satisfied : bool;
  satisfaction_level : string;
  system_prompt : string
}.

(** [GroqLLM.__init__] *)
Definition init : GroqLLM :=
  {| model := Config.GROQ_LLM_MODEL;
     conversation_history := [];
     question_count := 0;
     main_questions_asked := 0;
     interview_satisfied := false;
     satisfaction_level := "gathering_info";
     system_prompt := INTERVIEW_SYSTEM_PROMPT |}.

(** [GroqLLM.reset] *)
Definition reset (self : GroqLLM) : GroqLLM :=
  {| model := model self;
     conversation_history := [];
     question_count := 0;
     main_questions_asked := 0;
     interview_satisfied := false;
     satisfaction_level := "gathering_info";
     system_prompt := system_prompt self |}.

(** The [messages] list [_generate_response] sends to the chat service. *)
Definition request_messages (self : GroqLLM) (additional_instruction : string)
  : list message :=
  [Message "system" (system_prompt self)]
  ++ conversation_history self
  ++ (if truthy additional_instruction
      then [Message "user" additional_instruction] else []).

(** [GroqLLM._generate_response]; [assistant_message] is
    [response.choices[0].message.content] of the service's answer to
    [request_messages self additional_instruction]. *)
Definition _generate_response (self : GroqLLM) (additional_instruction : string)
    (assistant_message : string) : GroqLLM * string :=
  ({| model := model self;
      conversation_history :=
        conversation_history self ++ [Message "assistant" assistant_message];
      question_count := question_count self;
      main_questions_asked := main_questions_asked self;
      interview_satisfied := interview_satisfied self;
      satisfaction_level := satisfaction_level self;
      system_prompt := system_prompt self |},
   assistant_message).

Definition opening_prompt (candidate_name role : string) : string :=
  "Start the interview. The candidate's name is " +:+ candidate_name +:+
  " and they're interviewing for " +:+ role +:+ ". 
Give a warm, brief greeting and ask your first question about their background.".

Definition set_main_questions_asked (n : Z) (self : GroqLLM) : GroqLLM :=
  {| model := model self;
     conversation_history := conversation_history self;
     question_count := question_count self;
     main_questions_asked := n;
     interview_satisfied := interview_satisfied self;
     satisfaction_level := satisfaction_level self;
     system_prompt := system_prompt self |}.

Definition set_satisfaction (done : bool) (level : string) (self : GroqLLM) : GroqLLM :=
  {| model := model self;
     conversation_history := conversation_history self;
     question_count := question_count self;
     main_questions_asked := main_questions_asked self;
     interview_satisfied := done;
     satisfaction_level := level;
     system_prompt := system_prompt self |}.

(** [GroqLLM.start_interview] *)
Definition start_interview (self : GroqLLM) (candidate_name role : string)
    (assistant_message : string) : GroqLLM * string :=
  let self := reset self in
  let '(self, response) :=
    _generate_response self (opening_prompt candidate_name role) assistant_message in
  let self := set_main_questions_asked 1 self in
  (self, strip response).

Definition wrap_up_context : string :=
"The conversation is going well. You can start wrapping up soon.
If you feel you've learned enough about the candidate, thank them and conclude naturally.
Otherwise, ask one more question if needed.".

Definition continue_context : string :=
"Continue the interview naturally. Acknowledge their answer briefly and either:
- Ask a follow-up if their answer needs clarification
- Move to a new main topic/question
Keep it conversational.".

Definition early_context : string :=
"Continue the interview. Acknowledge their response and ask your next question.
Build rapport and explore their experience.".

(** The instruction chosen by the [if]/[elif]/[else] of [respond]. *)
Definition state_context (self : GroqLLM) : string :=
  if 4 <=? main_questions_asked self then wrap_up_context
  else if 2 <=? main_questions_asked self then continue_context
  else early_context.

Definition new_topic_indicators : list string :=
  [ "tell me about"; "can you describe"; "what experience"; "how would you";
    "walk me through"; "what's your approach"; "have you ever";
    "what do you think" ].

Definition ending_phrases : list string :=
  [ "thank you for your time"; "thank you for speaking"; "best of luck";
    "pleasure speaking"; "great talking"; "enjoyed our conversation";
    "we'll be in touch" ].

(** [is_new_main_question and "?" in response] *)
Definition opens_topic (response : string) : bool :=
  any_in new_topic_indicators (lower response) && contains "?" response.

(** [any(phrase in response_lower for phrase in ending_phrases)] *)
Definition closes_interview (response : string) : bool :=
  any_in ending_phrases (lower response).

(** [GroqLLM.respond] *)
Definition respond (self : GroqLLM) (user_input : string)
    (assistant_message : string) : GroqLLM * string :=
  let self :=
    {| model := model self;
       conversation_history :=
         conversation_history self ++ [Message "user" user_input];
       question_count := question_count self + 1;
       main_questions_asked := main_questions_asked self;
       interview_satisfied := interview_satisfied self;
       satisfaction_level := satisfaction_level self;
       system_prompt := system_prompt self |} in
  let '(self, response) :=
    _generate_response self (state_context self) assistant_message in
  let self :=
    if opens_topic response
    then set_main_questions_asked (main_questions_asked self + 1) self
    else self in
  let self :=
    if closes_interview response then set_satisfaction true "satisfied" self
    else if 3 <=? main_questions_asked self
         then set_satisfaction (interview_satisfied self) "almost_satisfied" self
    else self in
  (self, strip response).

(** The [messages] list a call of [respond] sends to the chat service:
    the history with the candidate's text appended, then the instruction. *)
Definition respond_request (self : GroqLLM) (user_input : string) : list message :=
  let self' :=
    {| model := model self;
       conversation_history :=
         conversation_history self ++ [Message "user" user_input];
       question_count := question_count self + 1;
       main_questions_asked := main_questions_asked self;
       interview_satisfied := interview_satisfied self;
       satisfaction_level := satisfaction_level self;
       system_prompt := system_prompt self |} in
  request_messages self' (state_context self').

(** [is_interview_complete] and [can_prompt_end] properties, [get_state]. *)
Definition is_interview_complete (self : GroqLLM) : bool := interview_satisfied self.
Definition can_prompt_end (self : GroqLLM) : bool := 3 <=? main_questions_asked self.

Record state_view := StateView {
  sv_question_count : Z;
  sv_main_questions_asked : Z;
  sv_satisfaction_level : string;
  sv_can_prompt_end : bool;
  sv_is_complete : bool
}.

Definition get_state (self : GroqLLM) : state_view :=
  {| sv_question_count := question_count self;
     sv_main_questions_asked := main_questions_asked self;
     sv_satisfaction_level := satisfaction_level self;
     sv_can_prompt_end := can_prompt_end self;
     sv_is_complete := is_interview_complete self |}.

(** A session's life as the state machine sees it: one [start_interview],
    then [respond] calls; a call is the candidate's text and the text the
    chat service returned. *)
Definition call := (string * string)%type.

Definition respond_all (self : GroqLLM) (calls : list call) : GroqLLM :=
  fold_left (fun s c => fst (respond s (fst c) (snd c))) calls self.

Definition session_after (candidate_name role opening : string)
    (calls : list call) : GroqLLM :=
  respond_all (fst (start_interview init candidate_name role opening)) calls.

(** ** A chat request that raises *)

(** [GroqLLM.respond] when the chat request raises: the first two
    statements of [respond] have run, so the candidate's text is in the
    history and [question_count] is incremented; the exception leaves the
    rest undone. *)
Definition respond_raised (self : GroqLLM) (user_input : string) : GroqLLM :=
  {| model := model self;
     conversation_history :=
       conversation_history self ++ [Message "user" user_input];
     question_count := question_count self + 1;
     main_questions_asked := main_questions_asked self;
     interview_satisfied := interview_satisfied self;
     satisfaction_level := satisfaction_level self;
     system_prompt := system_prompt self |}.

(** What the chat service does with a request: it answers with a text, or
    the call raises. *)
Inductive outcome :=
| Returned (assistant_message : string)
| Raised.

(** A [respond] call as it turns out: the candidate's text and what the
    service did. *)
Definition attempt := (string * outcome)%type.

Definition respond_attempt (self : GroqLLM) (a : attempt) : GroqLLM :=
  match snd a with
  | Returned assistant_message => fst (respond self (fst a) assistant_message)
  | Raised => respond_raised self (fst a)
  end.

Definition respond_attempts (self : GroqLLM) (attempts : list attempt) : GroqLLM :=
  fold_left respond_attempt attempts self.

(** The number of calls that raised. *)
Definition raised (attempts : list attempt) : Z :=
  Z.of_nat (length (List.filter (fun a : attempt =>
                                   match snd a with Raised => true | _ => false end)
                                attempts)).

Definition completed (a : attempt) : Prop := snd a <> Raised.

(** ** The chat service as a function of the request *)





(** Two sessions used as examples. *)

Definition alex : GroqLLM :=
  fst (start_interview init "Alex" "Backend Engineer"
         "Hi Alex, good to meet you. Tell me about your background?").

(** Two more topics opened, then the interviewer closes. *)
Definition alex_closed : GroqLLM :=
  respond_all alex
    [ ("I build payment services.", "Can you describe a hard bug you fixed?");
      ("A race in the ledger.", "How would you test such a fix?");
      ("With property tests.", "Thank you for your time, Alex. Best of luck!") ].

End LLM.

(* ===================================================================== *)
(** * tts_deepgram.py : the voice table and its selection                *)
(* ===================================================================== *)

Module TTS.

(** [AURA_VOICES], in the order of the source. *)
Definition AURA_VOICES : list (string * string) :=
  [ ("asteria", "aura-asteria-en"); ("luna", "aura-luna-en");
    ("stella", "aura-stella-en"); ("athena", "aura-athena-en");
    ("hera", "aura-hera-en"); ("orion", "aura-orion-en");
    ("arcas", "aura-arcas-en"); ("perseus", "aura-perseus-en");
    ("angus", "aura-angus-en"); ("orpheus", "aura-orpheus-en");
    ("helios", "aura-helios-en"); ("zeus", "aura-zeus-en") ].

(** [d.get(k)] on a dict written as its item list. *)
Fixpoint dict_get (d : list (string * string)) (k : string) : option string :=
  match d with
  | [] => None
  | (k', v) :: d' => if String.eqb k k' then Some v else dict_get d' k
  end.

(** [list(d.keys())] *)
Definition keys (d : list (string * string)) : list string := map fst d.

(** [str] of a list of plain strings, as the f-string of [set_voice]
    prints it: ['a', 'b']. *)
Fixpoint join (sep : string) (l : list string) : string :=
  match l with
  | [] => ""
  | [x] => x
  | x :: l' => x +:+ sep +:+ join sep l'
  end.

Definition list_repr (l : list string) : string :=
  "[" +:+ join ", " (map (fun k => "'" +:+ k +:+ "'") l) +:+ "]".

(** A [DeepgramTTS] object ([api_key] is configuration of the remote
    service). *)
Record DeepgramTTS := MkTTS { model : string }.

(** [DeepgramTTS.__init__] *)
Definition init (voice : string) : DeepgramTTS :=
  {| model := default Config.DEEPGRAM_TTS_MODEL (dict_get AURA_VOICES voice) |}.

(** [DeepgramTTS.set_voice]: [voice in AURA_VOICES] is the [Some] case. *)
Definition set_voice (self : DeepgramTTS) (voice : string) : result DeepgramTTS :=
  match dict_get AURA_VOICES voice with
  | Some m => Ok {| model := m |}
  | None => Raise (ValueError ("Unknown voice: " +:+ voice +:+ ". Available: "
                               +:+ list_repr (keys AURA_VOICES)))
  end.

(** What [synthesize] puts in the query string and body of its POST. *)
Record speak_request := SpeakRequest {
  rq_model : string;
  rq_encoding : string;
  rq_sample_rate : Z;
  rq_text : string
}.

(** The request [DeepgramTTS.synthesize] sends; its result is the
    [response.content] the service returns. *)
Definition synthesize_request (self : DeepgramTTS) (text : string) : speak_request :=
  {| rq_model := model self; rq_encoding := "linear16";
     rq_sample_rate := 24000; rq_text := text |}.

(** The singleton [tts = DeepgramTTS(voice="asteria")]. *)
Definition tts : DeepgramTTS := init "asteria".

End TTS.

(* ===================================================================== *)
(** * audio_utils.py : the silence-terminated recorder                   *)
(* ===================================================================== *)

Module Recorder.

(** Durations and thresholds are Python floats; they are rationals here,
    and the arithmetic on them is exact.  [Recorder64] below has the
    rounding of the code. *)

(** [int(x)] on a float: truncation toward zero. *)
Definition py_int (x : Q) : Z := Z.quot (Qnum x) (Zpos (Qden x)).

Definition Qltb (a b : Q) : bool := negb (Qle_bool b a).

(** One block handed to the stream callback: its int16 samples. *)
Definition chunk := list Z.

(** int16 arithmetic wraps around: [indata**2] keeps the dtype. *)
Definition wrap16 (x : Z) : Z := (x + 32768) mod 65536 - 32768.

Definition squares (indata : chunk) : list Z := map (fun x => wrap16 (x * x)) indata.

Definition sum (xs : list Z) : Z := fold_right Z.add 0 xs.

(** [np.mean], computed in float64 whatever the dtype. *)
Definition mean (xs : list Z) : Q := inject_Z (sum xs) / inject_Z (Z.of_nat (length xs)).

(** [np.sqrt(np.mean(indata**2)) < silence_threshold].  The root of a
    negative mean (or the mean of nothing) is nan, which is below nothing;
    otherwise the root is below the threshold when the threshold is
    positive and the mean is below its square. *)
Definition rms_below (indata : chunk) (silence_threshold : Q) : bool :=
  match indata with
  | [] => false
  | _ =>
      let m := mean (squares indata) in
      Qle_bool 0 m && Qltb 0 silence_threshold
      && Qltb m (silence_threshold * silence_threshold)
  end.

Record AudioRecorder := MkRecorder { sample_rate : Z; channels : Z }.

(** [AudioRecorder.__init__]: [sample_rate or config.AUDIO_SAMPLE_RATE]. *)
Definition init (sample_rate : option Z) (channels : Z) : AudioRecorder :=
  {| sample_rate :=
       match sample_rate with
       | Some r => if r =? 0 then Config.AUDIO_SAMPLE_RATE else r
       | None => Config.AUDIO_SAMPLE_RATE
       end;
     channels := channels |}.

(** The singleton [recorder = AudioRecorder()]. *)
Definition recorder : AudioRecorder := init None 1.

(** [int(silence_duration * self.sample_rate / 1024)] and
    [int(min_duration * self.sample_rate / 1024)]. *)
Definition required_silence_samples (self : AudioRecorder) (silence_duration : Q) : Z :=
  py_int (silence_duration * inject_Z (sample_rate self) / 1024).

Definition min_samples (self : AudioRecorder) (min_duration : Q) : Z :=
  py_int (min_duration * inject_Z (sample_rate self) / 1024).

(** The variables the callback closes over: [audio_chunks] and the
    nonlocal [silence_samples]. *)
Record capture := MkCapture { audio_chunks : list chunk; silence_samples : Z }.

Definition start : capture := {| audio_chunks := []; silence_samples := 0 |}.

(** The stream callback of [record_with_silence_detection]; the boolean
    says that it raised [sd.CallbackStop]. *)
Definition callback (silence_threshold : Q) (required_silence_samples min_samples : Z)
    (st : capture) (indata : chunk) : capture * bool :=
  let audio_chunks := audio_chunks st ++ [indata] in
  let silence_samples :=
    if rms_below indata silence_threshold
       && (min_samples <? Z.of_nat (length audio_chunks))
    then silence_samples st + 1
    else 0 in
  ({| audio_chunks := audio_chunks; silence_samples := silence_samples |},
   required_silence_samples <=? silence_samples).

(** The callback with its energy test left open: what it does to the
    buffer and to the counter does not depend on how the test is computed. *)
Definition callback_by (below : chunk -> bool)
    (required_silence_samples min_samples : Z)
    (st : capture) (indata : chunk) : capture * bool :=
  let audio_chunks := audio_chunks st ++ [indata] in
  let silence_samples :=
    if below indata && (min_samples <? Z.of_nat (length audio_chunks))
    then silence_samples st + 1
    else 0 in
  ({| audio_chunks := audio_chunks; silence_samples := silence_samples |},
   required_silence_samples <=? silence_samples).

(** The stream calls the callback block after block until it raises
    [CallbackStop] or the blocks end. *)
Fixpoint run_stream (cb : capture -> chunk -> capture * bool)
    (st : capture) (stream : list chunk) : capture * bool :=
  match stream with
  | [] => (st, false)
  | indata :: rest =>
      let '(st', stop) := cb st indata in
      if stop then (st', true) else run_stream cb st' rest
  end.

(** The bytes a recording returns: nothing, or a WAV container, kept
    structured ([setnchannels], [setsampwidth], [setframerate],
    [writeframes]). *)
Inductive audio :=
| NoAudio
| Wav (nchannels sampwidth framerate : Z) (frames : list Z).

(** [AudioRecorder._to_wav_bytes] *)
Definition _to_wav_bytes (self : AudioRecorder) (samples : list Z) : audio :=
  Wav (channels self) 2 (sample_rate self) samples.

(** [AudioRecorder.record_with_silence_detection].  [stream] is what the
    input device delivers, one block of 1024 frames after the other, while
    the caller sleeps [max_duration]; the result also tells whether the
    callback stopped the stream. *)
Definition record_with_silence_detection (self : AudioRecorder)
    (silence_threshold silence_duration min_duration : Q)
    (stream : list chunk) : audio * (capture * bool) :=
  let required_silence_samples := required_silence_samples self silence_duration in
  let min_samples := min_samples self min_duration in
  let '(st, stopped) :=
    run_stream (callback silence_threshold required_silence_samples min_samples)
               start stream in
  match audio_chunks st with
  | [] => (NoAudio, (st, stopped))
  | _ => (_to_wav_bytes self (concat (audio_chunks st)), (st, stopped))
  end.


(** A block is loud or quiet for a threshold. *)
Definition loud (silence_threshold : Q) (c : chunk) : Prop :=
  rms_below c silence_threshold = false.
Definition quiet (silence_threshold : Q) (c : chunk) : Prop :=
  rms_below c silence_threshold = true.

(** What the counter means: it never exceeds what is buffered, and that
    many blocks at the end of the buffer are quiet. *)
Definition counted (silence_threshold : Q) (st : capture) : Prop :=
  0 <= silence_samples st <= Z.of_nat (length (audio_chunks st)) /\
  Forall (quiet silence_threshold)
    (drop (length (audio_chunks st) - Z.to_nat (silence_samples st))
          (audio_chunks st)).

(** Two blocks used as examples. *)
Definition loud_block : chunk := repeat 1000 1024.
Definition quiet_block : chunk := repeat 0 1024.

End Recorder.

(* ===================================================================== *)
(** * audio_utils.py with the arithmetic of the code                     *)
(* ===================================================================== *)

(** [Recorder] computes on exact rationals.  The code computes on Python
    floats and numpy's float64, the IEEE 754 binary64 numbers, every
    operation rounded to the nearest, ties to even.  This module gives
    [record_with_silence_detection] with that arithmetic, through the
    Standard Library's specification of the format; the blocks, the buffer,
    the counter and the stream are those of [Recorder]. *)

Module Recorder64.
Import Recorder.

Definition float := SpecFloat.spec_float.

(** The float nearest to [m * 2^e]. *)
Definition f64 (m e : Z) : float := SpecFloat.binary_normalize 53 1024 m e false.

(** [float(n)] of an [int], as the mixed operations of Python convert it. *)
Definition of_int (n : Z) : float := f64 n 0.

Definition mul : float -> float -> float := SpecFloat.SFmul 53 1024.
Definition div : float -> float -> float := SpecFloat.SFdiv 53 1024.
Definition sqrt : float -> float := SpecFloat.SFsqrt 53 1024.
Definition ltb : float -> float -> bool := SpecFloat.SFltb.

(** The float a decimal literal [n / d] of the source denotes
    ([0.01] is [literal 1 100]): the quotient, rounded once. *)
Definition literal (n d : Z) : float := div (of_int n) (of_int d).

(** [int(x)] on a float: truncation toward zero; [None] where Python
    raises (a nan, an infinity). *)
Definition py_int (x : float) : option Z :=
  match x with
  | SpecFloat.S754_zero _ => Some 0
  | SpecFloat.S754_finite s m e =>
      let a := if 0 <=? e then Zpos m * 2 ^ e
               else Z.quot (Zpos m) (2 ^ (- e)) in
      Some (if s then - a else a)
  | _ => None
  end.

(** The rational a finite float stands for. *)
Definition to_Q (x : float) : Q :=
  match x with
  | SpecFloat.S754_finite s m e =>
      let a := if 0 <=? e then inject_Z (Zpos m * 2 ^ e)
               else Qmake (Zpos m) (Z.to_pos (2 ^ (- e))) in
      if s then Qopp a else a
  | _ => 0%Q
  end.

(** [np.mean] of an int16 array: the sum, exact in float64 for a block,
    divided by the number of samples; the mean of nothing is nan. *)
Definition mean (xs : list Z) : float :=
  div (of_int (sum xs)) (of_int (Z.of_nat (length xs))).

(** [np.sqrt(np.mean(indata**2)) < silence_threshold].  The squares are
    int16 and wrap around; the root of a negative mean is nan, and a
    comparison with nan is false. *)
Definition rms_below (indata : chunk) (silence_threshold : float) : bool :=
  ltb (sqrt (mean (squares indata))) silence_threshold.

(** [int(silence_duration * self.sample_rate / 1024)] and
    [int(min_duration * self.sample_rate / 1024)]. *)
Definition required_silence_samples (self : AudioRecorder) (silence_duration : float)
  : option Z :=
  py_int (div (mul silence_duration (of_int (sample_rate self))) (of_int 1024)).

Definition min_samples (self : AudioRecorder) (min_duration : float) : option Z :=
  py_int (div (mul min_duration (of_int (sample_rate self))) (of_int 1024)).

(** The stream callback of [record_with_silence_detection]; the boolean
    says that it raised [sd.CallbackStop]. *)
Definition callback (silence_threshold : float)
    (required_silence_samples min_samples : Z)
    (st : capture) (indata : chunk) : capture * bool :=
  let audio_chunks := audio_chunks st ++ [indata] in
  let silence_samples :=
    if rms_below indata silence_threshold
       && (min_samples <? Z.of_nat (length audio_chunks))
    then silence_samples st + 1
    else 0 in
  ({| audio_chunks := audio_chunks; silence_samples := silence_samples |},
   required_silence_samples <=? silence_samples).

(** [AudioRecorder.record_with_silence_detection]; [None] when one of the
    two [int(...)] raises, before the stream is opened.  [stream] is what
    the input device delivers, one block of 1024 frames after the other;
    the result also tells whether the callback stopped the stream. *)
Definition record_with_silence_detection (self : AudioRecorder)
    (silence_threshold silence_duration min_duration : float)
    (stream : list chunk) : option (audio * (capture * bool)) :=
  match required_silence_samples self silence_duration with
  | None => None
  | Some required_silence_samples =>
      match min_samples self min_duration with
      | None => None
      | Some min_samples =>
          let '(st, stopped) :=
            run_stream (callback silence_threshold required_silence_samples min_samples)
                       start stream in
          match audio_chunks st with
          | [] => Some (NoAudio, (st, stopped))
          | _ => Some (_to_wav_bytes self (concat (audio_chunks st)), (st, stopped))
          end
      end
  end.



End Recorder64.

(* ===================================================================== *)
(** * interview_agent.py : the interactive loop                          *)
(* ===================================================================== *)

Module Agent.
Import Text.

(** An [InterviewAgent]; [stt], [recorder] and [player] carry no state the
    loop reads. *)
Record InterviewAgent := MkAgent {
  llm : LLM.GroqLLM;
  tts : TTS.DeepgramTTS;
  running : bool;
  transcript : list message
}.

(** [InterviewAgent.__init__], on the module singletons [llm] and [tts]. *)
Definition init (llm : LLM.GroqLLM) (tts : TTS.DeepgramTTS) (voice : string)
  : result InterviewAgent :=
  match TTS.set_voice tts voice with
  | Raise e => Raise e
  | Ok tts => Ok {| llm := llm; tts := tts; running := false; transcript := [] |}
  end.

Definition set_llm (l : LLM.GroqLLM) (self : InterviewAgent) : InterviewAgent :=
  {| llm := l; tts := tts self; running := running self;
     transcript := transcript self |}.

Definition set_running (b : bool) (self : InterviewAgent) : InterviewAgent :=
  {| llm := llm self; tts := tts self; running := b;
     transcript := transcript self |}.

Definition set_transcript (t : list message) (self : InterviewAgent) : InterviewAgent :=
  {| llm := llm self; tts := tts self; running := running self;
     transcript := t |}.

(** [InterviewAgent.speak]: the line is recorded, then synthesized and
    played. *)
Definition speak (self : InterviewAgent) (text : string) : InterviewAgent :=
  set_transcript (transcript self ++ [Message "interviewer" text]) self.

(** [InterviewAgent.listen]: [audio_bytes] is what the recorder returned
    and [text] what the transcription service returned for it. *)
Definition listen (self : InterviewAgent) (audio_bytes : Recorder.audio)
    (text : string) : InterviewAgent * string :=
  match audio_bytes with
  | Recorder.NoAudio => (self, "")
  | _ => (set_transcript (transcript self ++ [Message "candidate" text]) self, text)
  end.

Definition exit_commands : list string :=
  [ "exit"; "quit"; "stop interview"; "end interview" ].

Definition repeat_line : string := "I didn't catch that. Could you please repeat?".
Definition concluding_line : string :=
  "Thank you for your time. The interview is now concluded.".

(** What the environment supplies to one pass of the loop: the recording,
    its transcription, and the chat service's answer (read only when
    [respond] is reached). *)
Record turn_input := TurnInput {
  audio_bytes : Recorder.audio;
  heard : string;
  reply : string
}.

Inductive flow := Continue | Break.

(** The body of the [while] of [run_interview]. *)
Definition loop_body (self : InterviewAgent) (inp : turn_input)
  : InterviewAgent * flow :=
  let '(self, response) := listen self (audio_bytes inp) (heard inp) in
  if negb (truthy response) then (speak self repeat_line, Continue)
  else if any_in exit_commands (lower response)
       then (speak self concluding_line, Break)
  else
    let '(l, interviewer_response) := LLM.respond (llm self) response (reply inp) in
    (speak (set_llm l self) interviewer_response, Continue).

(** [while self.running and not self.llm.is_interview_complete].  The
    inputs are the passes that run to their end; where they end before the
    loop is left, the operator has interrupted between two passes.  A pass
    cut short (an interrupt, or a remote call that raises, inside it) is
    not described. *)
Fixpoint interview_loop (self : InterviewAgent) (inputs : list turn_input)
  : InterviewAgent :=
  match inputs with
  | [] => self
  | inp :: rest =>
      if running self && negb (LLM.is_interview_complete (llm self))
      then
        let '(self', f) := loop_body self inp in
        match f with
        | Break => self'
        | Continue => interview_loop self' rest
        end
      else self
  end.

(** The opening of [run_interview]: the state is reset and the first line
    spoken. *)
Definition open_interview (self : InterviewAgent) (candidate_name role : string)
    (opening_reply : string) : InterviewAgent :=
  let self := set_transcript [] (set_running true self) in
  let '(l, opening) := LLM.start_interview (llm self) candidate_name role opening_reply in
  speak (set_llm l self) opening.

(** [InterviewAgent.run_interview] *)
Definition run_interview (self : InterviewAgent) (candidate_name role : string)
    (opening_reply : string) (inputs : list turn_input)
  : InterviewAgent * list message :=
  let self := open_interview self candidate_name role opening_reply in
  let self := interview_loop self inputs in
  let self := set_running false self in
  (self, transcript self).

(** An agent, an opened interview and a recording used as examples. *)

Definition agent0 : InterviewAgent :=
  {| llm := LLM.init; tts := TTS.tts; running := false; transcript := [] |}.

Definition opened : InterviewAgent :=
  open_interview agent0 "Alex" "Backend Engineer"
    "Hi Alex, good to meet you. Tell me about your background?".

Definition a_recording : Recorder.audio := Recorder.Wav 1 2 16000 [12; -7; 3].

End Agent.

(* ===================================================================== *)
(** * main.py : the session registry and its endpoints                   *)
(* ===================================================================== *)

Module Server.
Import Text.

(** A value of the [sessions] dict. *)
Record session := MkSession {
  llm : LLM.GroqLLM;
  tts : TTS.DeepgramTTS;
  candidate_name : string;
  role : string;
  transcript : list message
}.

Abbreviation registry := (gmap string session).

(** [InterviewStartRequest] *)
Record InterviewStartRequest := StartRequest {
  rq_candidate_name : string;
  rq_role : string;
  rq_voice : string
}.

(** Audio travels as bytes; its base64 text form is not modelled. *)
Definition bytes := list Z.

(** [InterviewStartResponse] *)
Record InterviewStartResponse := StartResponse {
  session_id : string;
  opening_message : string;
  opening_audio : bytes;
  state : LLM.state_view
}.

(** [start_interview]: [session_id] is the uuid drawn, [opening_reply] the
    chat service's answer and [audio_bytes] the synthesis of the opening. *)
Definition start_interview (sessions : registry) (session_id : string)
    (request : InterviewStartRequest) (opening_reply : string) (audio_bytes : bytes)
  : registry * InterviewStartResponse :=
  let llm := LLM.init in
  let tts := TTS.init (rq_voice request) in
  let '(llm, opening_message) :=
    LLM.start_interview llm (rq_candidate_name request) (rq_role request) opening_reply in
  let sessions :=
    <[ session_id :=
         {| llm := llm; tts := tts;
            candidate_name := rq_candidate_name request;
            role := rq_role request;
            transcript := [Message "interviewer" opening_message] |} ]> sessions in
  (sessions,
   {| session_id := session_id; opening_message := opening_message;
      opening_audio := audio_bytes; state := LLM.get_state llm |}).

(** The synthesis request [start_interview] makes for the opening. *)
Definition start_interview_speaks (request : InterviewStartRequest)
    (opening_reply : string) : TTS.speak_request :=
  TTS.synthesize_request (TTS.init (rq_voice request))
    (snd (LLM.start_interview LLM.init (rq_candidate_name request)
            (rq_role request) opening_reply)).

Definition not_found {A} : result A := Raise (HTTPException 404 "Session not found").

(** [get_interview_state] *)
Definition get_interview_state (sessions : registry) (session_id : string)
  : result (LLM.state_view * list message) :=
  match sessions !! session_id with
  | None => not_found
  | Some session => Ok (LLM.get_state (llm session), transcript session)
  end.

(** [end_interview]; the registry comes back as the handler leaves it. *)
Definition end_interview (sessions : registry) (session_id : string)
  : registry * result (string * list message * LLM.state_view) :=
  match sessions !! session_id with
  | None => (sessions, not_found)
  | Some session =>
      (sessions,
       Ok ("Interview ended", transcript session, LLM.get_state (llm session)))
  end.

(** The body of the answer of [respond_to_audio]. *)
Record RespondResponse := MkRespond {
  candidate_transcript : string;
  interviewer_response : string;
  audio : bytes;
  rs_state : LLM.state_view
}.

(** [respond_to_audio]: [transcript_text] is what the transcription
    service returned for the decoded audio, [reply] the chat service's
    answer, [response_audio] the synthesis of the answer. *)
Definition respond_to_audio (sessions : registry) (session_id : string)
    (transcript_text reply : string) (response_audio : bytes)
  : registry * result RespondResponse :=
  match sessions !! session_id with
  | None => (sessions, not_found)
  | Some session =>
      if negb (truthy transcript_text)
      then (sessions, Raise (HTTPException 422 "Could not transcribe audio"))
      else
        let t := transcript session ++ [Message "candidate" transcript_text] in
        let '(llm, response) := LLM.respond (llm session) transcript_text reply in
        let t := t ++ [Message "interviewer" response] in
        let session :=
          {| llm := llm; tts := tts session;
             candidate_name := candidate_name session;
             role := role session; transcript := t |} in
        (<[ session_id := session ]> sessions,
         Ok {| candidate_transcript := transcript_text;
               interviewer_response := response;
               audio := response_audio;
               rs_state := LLM.get_state llm |})
  end.

(** [get_voices]: the names the server advertises. *)
Definition get_voices : list string := TTS.keys TTS.AURA_VOICES.

(** A turn as [respond_to_audio] receives it: the transcription of the
    posted audio, the chat service's answer and its synthesis. *)
Definition turn := (string * string * bytes)%type.

(** A sequence of [respond_to_audio] requests for one session id, answered
    one after the other. *)
Definition submit_turns (sessions : registry) (session_id : string)
    (turns : list turn) : registry :=
  fold_left (fun s t => fst (respond_to_audio s session_id (fst (fst t)) (snd (fst t)) (snd t)))
            turns sessions.

(** ** Requests whose remote calls may raise *)

(** What the client gets when a handler lets an exception through. *)
Definition internal_error {A} : result A :=
  Raise (HTTPException 500 "Internal Server Error").

(** [respond_to_audio] when a remote call may raise.  [transcript_text] is
    [None] when decoding or transcription raised, [reply] tells what the
    chat service did, [response_audio] is [None] when the synthesis raised.
    The handler catches nothing: the exception leaves the session as the
    statements before it have made it. *)
Definition respond_to_audio_attempt (sessions : registry) (session_id : string)
    (transcript_text : option string) (reply : LLM.outcome)
    (response_audio : option bytes)
  : registry * result RespondResponse :=
  match sessions !! session_id with
  | None => (sessions, not_found)
  | Some session =>
      match transcript_text with
      | None => (sessions, internal_error)
      | Some transcript_text =>
          if negb (truthy transcript_text)
          then (sessions, Raise (HTTPException 422 "Could not transcribe audio"))
          else
            let t := transcript session ++ [Message "candidate" transcript_text] in
            match reply with
            | LLM.Raised =>
                let session :=
                  {| llm := LLM.respond_raised (llm session) transcript_text;
                     tts := tts session;
                     candidate_name := candidate_name session;
                     role := role session; transcript := t |} in
                (<[ session_id := session ]> sessions, internal_error)
            | LLM.Returned reply =>
                let '(llm, response) :=
                  LLM.respond (llm session) transcript_text reply in
                let t := t ++ [Message "interviewer" response] in
                let session :=
                  {| llm := llm; tts := tts session;
                     candidate_name := candidate_name session;
                     role := role session; transcript := t |} in
                match response_audio with
                | None => (<[ session_id := session ]> sessions, internal_error)
                | Some response_audio =>
                    (<[ session_id := session ]> sessions,
                     Ok {| candidate_transcript := transcript_text;
                           interviewer_response := response;
                           audio := response_audio;
                           rs_state := LLM.get_state llm |})
                end
            end
      end
  end.

(** A request as it turns out: the transcription, what the chat service
    did, the synthesis. *)
Definition request_attempt := (option string * LLM.outcome * option bytes)%type.

Definition submit_attempts (sessions : registry) (session_id : string)
    (requests : list request_attempt) : registry :=
  fold_left
    (fun s r =>
       fst (respond_to_audio_attempt s session_id (fst (fst r)) (snd (fst r)) (snd r)))
    requests sessions.

(** The [respond] calls a sequence of requests reaches: one for each
    request whose transcription came back and is not empty. *)
Fixpoint reached (requests : list request_attempt) : list LLM.attempt :=
  match requests with
  | [] => []
  | (Some text, reply, _) :: rest =>
      if truthy text then (text, reply) :: reached rest else reached rest
  | (None, _, _) :: rest => reached rest
  end.

(** A turn that returned, as a request. *)
Definition returned (t : turn) : request_attempt :=
  (Some (fst (fst t)), LLM.Returned (snd (fst t)), Some (snd t)).

(** The transcript entry that stands for an entry of the chat history: the
    assistant's text is spoken stripped, the user's text is the
    transcription as it came. *)
Definition mirror (m : message) : message :=
  match m with
  | Message r c =>
      if String.eqb r "assistant" then Message "interviewer" (strip c)
      else Message "candidate" c
  end.

(** A registry with one session, used as an example. *)

Definition one_session : registry :=
  fst (start_interview ∅ "s1"
         (StartRequest "Alex" "Backend Engineer" "asteria")
         "Hi Alex, good to meet you. Tell me about your background?" []).

End Server.

(* ===================================================================== *)
(** * Properties                                                         *)
(* ===================================================================== *)

Module TextFacts.
Import Text.

Lemma starts_with_spec p s :
  starts_with p s = true <-> exists post, s = p +:+ post.
Proof.
  revert s. induction p as [|a p IH]; intros s; simpl.
  - split; [intros _; by exists s | done].
  - destruct s as [|b s].
    + split; [done | intros [post H]; discriminate].
    + destruct (Ascii.eqb a b) eqn:E.
      * apply Ascii.eqb_eq in E as ->. rewrite IH.
        split; intros [post H]; exists post; [by rewrite H | by injection H].
      * apply Ascii.eqb_neq in E.
        split; [done | intros [post H]; injection H; intros; by subst].
Qed.

Lemma contains_spec p s : contains p s = true <-> Substring p s.
Proof.
  unfold Substring. induction s as [|c s IH].
  - simpl. rewrite orb_false_r, starts_with_spec. split.
    + intros [post H]. by exists "", post.
    + intros [pre [post H]]. destruct pre; [by exists post | discriminate].
  - cbn [contains]. rewrite orb_true_iff, IH, starts_with_spec. split.
    + intros [[post H] | [pre [post H]]].
      * by exists "", post.
      * exists (String c pre), post. by rewrite H.
    + intros [pre [post H]]. destruct pre as [|c' pre].
      * left. by exists post.
      * right. injection H as _ H. by exists pre, post.
Qed.

Lemma any_in_spec ps s :
  any_in ps s = true <-> exists p, In p ps /\ Substring p s.
Proof.
  unfold any_in. rewrite existsb_exists.
  split; intros [p [Hin H]]; exists p; split; auto; by apply contains_spec.
Qed.

End TextFacts.

Module LLMFacts.
Import Text LLM TextFacts.

(** ** One call of [respond], field by field *)

#[local] Arguments opens_topic : simpl never.
#[local] Arguments closes_interview : simpl never.
#[local] Arguments state_context : simpl never.
#[local] Arguments strip : simpl never.

(** Unfold [respond] and split on each test it makes. *)
Ltac respond_cases :=
  unfold respond, _generate_response, set_main_questions_asked, set_satisfaction;
  cbn;
  repeat match goal with
         | |- context [if ?b then _ else _] => destruct b eqn:?; cbn
         end.

Lemma respond_history self u r :
  conversation_history (fst (respond self u r)) =
  conversation_history self ++ [Message "user" u; Message "assistant" r].
Proof. respond_cases; by rewrite <- app_assoc. Qed.

Lemma respond_question_count self u r :
  question_count (fst (respond self u r)) = question_count self + 1.
Proof. by respond_cases. Qed.

Lemma respond_main_questions self u r :
  main_questions_asked (fst (respond self u r)) =
  main_questions_asked self + (if opens_topic r then 1 else 0).
Proof. respond_cases; lia. Qed.

Lemma respond_satisfied self u r :
  interview_satisfied (fst (respond self u r)) =
  interview_satisfied self || closes_interview r.
Proof. respond_cases; by rewrite ?orb_true_r, ?orb_false_r. Qed.

Lemma respond_level self u r :
  satisfaction_level (fst (respond self u r)) =
  if closes_interview r then "satisfied"
  else if 3 <=? main_questions_asked (fst (respond self u r))
       then "almost_satisfied"
  else satisfaction_level self.
Proof.
  rewrite respond_main_questions.
  unfold respond, _generate_response, set_main_questions_asked, set_satisfaction.
  cbn. destruct (opens_topic r), (closes_interview r); cbn; try done;
    rewrite ?Z.add_0_r; by destruct (3 <=? _).
Qed.

(** ** Sequences of calls *)

Lemma respond_all_cons self c calls :
  respond_all self (c :: calls) =
  respond_all (fst (respond self (fst c) (snd c))) calls.
Proof. reflexivity. Qed.

Lemma respond_all_snoc self calls c :
  respond_all self (calls ++ [c]) =
  fst (respond (respond_all self calls) (fst c) (snd c)).
Proof. unfold respond_all. by rewrite fold_left_app. Qed.

Lemma respond_all_satisfied self calls :
  interview_satisfied (respond_all self calls) =
  interview_satisfied self || existsb (fun c => closes_interview (snd c)) calls.
Proof.
  revert self. induction calls as [|c calls IH]; intros self.
  - cbn. by rewrite orb_false_r.
  - rewrite respond_all_cons, IH, respond_satisfied. cbn. by rewrite orb_assoc.
Qed.

Lemma respond_all_main_questions_mono self calls :
  main_questions_asked self <= main_questions_asked (respond_all self calls).
Proof.
  revert self. induction calls as [|c calls IH]; intros self; [cbn; lia|].
  rewrite respond_all_cons. etrans; [|apply IH].
  rewrite respond_main_questions. destruct (opens_topic _); lia.
Qed.

Lemma respond_all_level_kept self calls :
  main_questions_asked (respond_all self calls) < 3 ->
  satisfaction_level self = "satisfied" ->
  satisfaction_level (respond_all self calls) = "satisfied".
Proof.
  revert self. induction calls as [|c calls IH]; intros self Hlt Hs; [done|].
  rewrite respond_all_cons in *. apply IH; [done|].
  rewrite respond_level. destruct (closes_interview _); [done|].
  pose proof (respond_all_main_questions_mono
                (fst (respond self (fst c) (snd c))) calls) as Hm.
  destruct (Z.leb_spec 3 (main_questions_asked (fst (respond self c.1 c.2))));
    [lia | done].
Qed.

Lemma opens_topic_spec r :
  opens_topic r = true <->
  Substring "?" r /\
  exists p, In p new_topic_indicators /\ Substring p (lower r).
Proof.
  unfold opens_topic. rewrite andb_true_iff, any_in_spec, contains_spec. tauto.
Qed.

Lemma closes_interview_spec r :
  closes_interview r = true <->
  exists p, In p ending_phrases /\ Substring p (lower r).
Proof. apply any_in_spec. Qed.

(** ** Concrete sessions *)

Example alex_begin :
  main_questions_asked alex = 1 /\ question_count alex = 0 /\
  satisfaction_level alex = "gathering_info" /\ interview_satisfied alex = false.
Proof. by vm_compute. Qed.

Example alex_closed_state :
  get_state alex_closed =
  {| sv_question_count := 3; sv_main_questions_asked := 3;
     sv_satisfaction_level := "satisfied"; sv_can_prompt_end := true;
     sv_is_complete := true |}.
Proof. by vm_compute. Qed.

Example follow_up_keeps_going :
  interview_satisfied
    (fst (respond alex "I build payment services." "Which database was that?"))
  = false.
Proof. by vm_compute. Qed.

(** ** The claims on the state machine *)

(** C1, as the code has it: a reply that contains a closure phrase sets
    [satisfaction_level] to satisfied and [is_complete] to true in that
    call; [is_complete] then stays true through every later sequence of
    [respond] calls; the level stays satisfied through later calls as long
    as the number of topics opened stays below 3; and a reply with no
    closure phrase leaves [is_complete] as it was. *)
Theorem closure_detection (self : GroqLLM) (user_input reply : string) :
  let self' := fst (respond self user_input reply) in
  (closes_interview reply = true ->
     satisfaction_level self' = "satisfied" /\
     interview_satisfied self' = true /\
     (forall calls, interview_satisfied (respond_all self' calls) = true) /\
     (forall calls, main_questions_asked (respond_all self' calls) < 3 ->
                    satisfaction_level (respond_all self' calls) = "satisfied")) /\
  (closes_interview reply = false ->
     interview_satisfied self' = interview_satisfied self) /\
  (forall calls, interview_satisfied self = true ->
                 interview_satisfied (respond_all self calls) = true).
Proof.
  intros self'. split; [|split].
  - intros Hc.
    assert (Hl : satisfaction_level self' = "satisfied")
      by (subst self'; by rewrite respond_level, Hc).
    assert (Hs : interview_satisfied self' = true)
      by (subst self'; by rewrite respond_satisfied, Hc, orb_true_r).
    repeat split; [done | done | |].
    + intros calls. by rewrite respond_all_satisfied, Hs.
    + intros calls Hlt. by apply respond_all_level_kept.
  - intros Hc. subst self'. by rewrite respond_satisfied, Hc, orb_false_r.
  - intros calls Hs. by rewrite respond_all_satisfied, Hs.
Qed.

Lemma closure_detection_witness :
  closes_interview "Thank you for your time." = true /\
  satisfaction_level
    (fst (respond alex "I build payment services." "Thank you for your time."))
  = "satisfied".
Proof.
  assert (H : closes_interview "Thank you for your time." = true) by reflexivity.
  split; [exact H|].
  exact (proj1 (proj1 (closure_detection alex "I build payment services."
                         "Thank you for your time.") H)).
Defined.

(** C1 as stated fails: satisfied is not terminal.  After the interviewer
    has closed, one more [respond] whose reply has no closure phrase, with
    three topics opened, puts the level back to almost_satisfied (while
    [is_complete] stays true). *)
Lemma satisfied_is_not_terminal :
  satisfaction_level alex_closed = "satisfied" /\
  let later := fst (respond alex_closed "One more thing." "Sure, go ahead.") in
  satisfaction_level later = "almost_satisfied" /\
  interview_satisfied later = true.
Proof. by vm_compute. Qed.

(** C8: a call of [respond] adds one to [main_questions_asked] when the
    reply contains a question mark and, lowercased, one of the topic-opening
    phrases, and leaves it unchanged otherwise; the candidate's text plays
    no part, and the counter never decreases over a sequence of calls. *)
Theorem topic_escalation (self : GroqLLM) (user_input reply : string) :
  let opening :=
    Substring "?" reply /\
    exists p, In p new_topic_indicators /\ Substring p (lower reply) in
  let self' := fst (respond self user_input reply) in
  (opening -> main_questions_asked self' = main_questions_asked self + 1) /\
  (~ opening -> main_questions_asked self' = main_questions_asked self) /\
  (forall other_input,
     main_questions_asked (fst (respond self other_input reply)) =
     main_questions_asked self') /\
  (forall calls,
     main_questions_asked self <= main_questions_asked (respond_all self calls)).
Proof.
  intros opening self'. subst self'. repeat split.
  - intros H. apply opens_topic_spec in H.
    by rewrite respond_main_questions, H.
  - intros H. rewrite respond_main_questions.
    destruct (opens_topic reply) eqn:E; [|lia].
    by apply opens_topic_spec in E.
  - intros other. by rewrite !respond_main_questions.
  - apply respond_all_main_questions_mono.
Qed.

Lemma topic_escalation_witness :
  (Substring "?" "Can you describe a bug?" /\
   exists p, In p new_topic_indicators /\
             Substring p (lower "Can you describe a bug?")) /\
  main_questions_asked
    (fst (respond alex "I build payment services." "Can you describe a bug?"))
  = main_questions_asked alex + 1.
Proof.
  assert (H : Substring "?" "Can you describe a bug?" /\
              exists p, In p new_topic_indicators /\
                        Substring p (lower "Can you describe a bug?")).
  { split.
    - by exists "Can you describe a bug", "".
    - exists "can you describe". split; [cbn; tauto|].
      by exists "", " a bug?". }
  split; [exact H|].
  exact (proj1 (topic_escalation alex "I build payment services."
                  "Can you describe a bug?") H).
Defined.

(** ** Calls that may raise *)

Lemma respond_attempts_snoc self attempts a :
  respond_attempts self (attempts ++ [a]) =
  respond_attempt (respond_attempts self attempts) a.
Proof. unfold respond_attempts. by rewrite fold_left_app. Qed.

Lemma respond_attempts_cons self a attempts :
  respond_attempts self (a :: attempts) =
  respond_attempts (respond_attempt self a) attempts.
Proof. reflexivity. Qed.

Lemma respond_attempt_history self (a : attempt) :
  conversation_history (respond_attempt self a) =
  conversation_history self
  ++ Message "user" (fst a)
     :: match snd a with
        | Returned reply => [Message "assistant" reply]
        | Raised => []
        end.
Proof.
  destruct a as [u [r|]]; unfold respond_attempt; cbn [fst snd]; [|done].
  apply respond_history.
Qed.

Lemma respond_attempt_question_count self (a : attempt) :
  question_count (respond_attempt self a) = question_count self + 1.
Proof.
  destruct a as [u [r|]]; unfold respond_attempt; cbn [fst snd]; [|done].
  apply respond_question_count.
Qed.

Lemma raised_snoc attempts (a : attempt) :
  raised (attempts ++ [a]) =
  raised attempts + match snd a with Raised => 1 | _ => 0 end.
Proof.
  unfold raised. rewrite List.filter_app, length_app.
  destruct a as [u [r|]]; cbn; lia.
Qed.

Lemma raised_none attempts : Forall completed attempts -> raised attempts = 0.
Proof.
  unfold raised. induction 1 as [|[u [r|]] attempts Ha _ IH]; cbn; try done.
Qed.

(** Calls that all returned are the calls of [respond_all]. *)
Lemma respond_attempts_returned self (calls : list call) :
  respond_attempts self (map (fun c : call => (fst c, Returned (snd c))) calls) =
  respond_all self calls.
Proof.
  revert self. induction calls as [|c calls IH]; intros self; [done|].
  cbn [map]. rewrite respond_attempts_cons, respond_all_cons. apply IH.
Qed.

(** C9 as stated fails: [respond] has appended the candidate's text and
    incremented [question_count] when the chat request raises, and keeps
    both.  After an advance that raised and one that completed, the
    history has 4 entries and [question_count] is 2. *)
Lemma a_failed_advance_is_kept :
  let s := respond_attempts alex
             [ ("I build payment services.", Raised);
               ("I build payment services.", Returned "Which database was that?") ] in
  conversation_history s =
    [ Message "assistant" "Hi Alex, good to meet you. Tell me about your background?";
      Message "user" "I build payment services.";
      Message "user" "I build payment services.";
      Message "assistant" "Which database was that?" ] /\
  question_count s = 2 /\
  Z.of_nat (length (conversation_history s)) <> 2 * question_count s + 1.
Proof. by vm_compute. Qed.

(** C9, as the code has it.  [start_interview], whatever the object held
    before, leaves the opening alone in the history and [question_count]
    at 0.  A [respond] that completes appends the candidate's text and the
    reply, in that order and nothing else (the instruction goes with the
    request, as its last message, and is not kept), and adds one to
    [question_count]; a [respond] whose chat request raises appends the
    candidate's text alone and adds one all the same.  So after
    [start_interview] and any calls of [respond], the length of the history
    plus the number of calls that raised is twice [question_count] plus
    one; when none has raised, the length is twice [question_count] plus
    one. *)
Theorem history_length (self : GroqLLM) (candidate_name role opening : string)
    (attempts : list attempt) :
  let begun := fst (start_interview self candidate_name role opening) in
  let s := respond_attempts begun attempts in
  (conversation_history begun = [Message "assistant" opening] /\
   question_count begun = 0) /\
  (forall self user_input reply,
     let self' := fst (respond self user_input reply) in
     conversation_history self' =
       conversation_history self
       ++ [Message "user" user_input; Message "assistant" reply] /\
     question_count self' = question_count self + 1) /\
  (forall self user_input,
     respond_request self user_input =
     [Message "system" (system_prompt self)]
     ++ conversation_history self
     ++ [Message "user" user_input; Message "user" (state_context self)]) /\
  (forall self user_input,
     let self' := respond_raised self user_input in
     conversation_history self' =
       conversation_history self ++ [Message "user" user_input] /\
     question_count self' = question_count self + 1) /\
  Z.of_nat (length (conversation_history s)) + raised attempts
    = 2 * question_count s + 1 /\
  (Forall completed attempts ->
   Z.of_nat (length (conversation_history s)) = 2 * question_count s + 1).
Proof.
  cbn zeta.
  assert (Hlaw : forall attempts,
    Z.of_nat (length (conversation_history
                        (respond_attempts
                           (fst (start_interview self candidate_name role opening))
                           attempts)))
    + raised attempts
    = 2 * question_count
            (respond_attempts
               (fst (start_interview self candidate_name role opening)) attempts)
      + 1).
  { clear attempts. intros attempts.
    induction attempts as [|a attempts IH] using rev_ind; [done|].
    rewrite respond_attempts_snoc, respond_attempt_history,
      respond_attempt_question_count, raised_snoc, length_app.
    destruct a as [u [r|]]; cbn [snd length]; lia. }
  split; [done|]. split; [|split; [|split; [done|split]]].
  - intros s u r. cbn zeta. by rewrite respond_history, respond_question_count.
  - intros s u. unfold respond_request, request_messages.
    cbn [conversation_history system_prompt].
    replace (truthy (state_context _)) with true
      by (unfold state_context; cbn [main_questions_asked];
          by repeat case_match).
    by rewrite <- app_assoc.
  - apply Hlaw.
  - intros Hc. pose proof (Hlaw attempts) as H.
    rewrite (raised_none attempts Hc) in H. lia.
Qed.

Lemma history_length_witness :
  Forall completed
    [ ("I build payment services.", Returned "Which database was that?");
      ("Postgres.", Returned "How would you shard it?") ] /\
  Z.of_nat
    (length
       (conversation_history
          (respond_attempts alex
             [ ("I build payment services.", Returned "Which database was that?");
               ("Postgres.", Returned "How would you shard it?") ])))
  = 2 * 2 + 1.
Proof.
  assert (Hc : Forall completed
    [ ("I build payment services.", Returned "Which database was that?");
      ("Postgres.", Returned "How would you shard it?") ])
    by (by repeat constructor).
  split; [exact Hc|].
  exact (proj2 (proj2 (proj2 (proj2 (proj2
           (history_length init "Alex" "Backend Engineer"
              "Hi Alex, good to meet you. Tell me about your background?"
              [ ("I build payment services.", Returned "Which database was that?");
                ("Postgres.", Returned "How would you shard it?") ]))))) Hc).
Defined.

End LLMFacts.

Module StreamFacts.
Import Recorder.

(** ** The stream, whatever the callback *)

Section Run.
Variable cb : capture -> chunk -> capture * bool.

Lemma run_app st a b :
  run_stream cb st (a ++ b) =
  if snd (run_stream cb st a) then run_stream cb st a
  else run_stream cb (fst (run_stream cb st a)) b.
Proof.
  revert st. induction a as [|c a IH]; intros st; cbn [run_stream app]; [done|].
  destruct (cb st c) as [st1 stop] eqn:E. destruct stop; [done | apply IH].
Qed.

(** A stopped run: the block at which the callback raised, what came
    before it, and what was never delivered. *)
Lemma run_stopped st stream st' :
  run_stream cb st stream = (st', true) ->
  exists front c rest st0,
    stream = front ++ c :: rest /\
    run_stream cb st front = (st0, false) /\ cb st0 c = (st', true).
Proof.
  revert st. induction stream as [|c stream IH]; intros st; cbn [run_stream]; [done|].
  destruct (cb st c) as [st1 stop] eqn:E. destruct stop.
  - intros [= <-]. by exists [], c, stream, st.
  - intros H. apply IH in H as (front & c' & rest & st0 & -> & Hf & Hc).
    exists (c :: front), c', rest, st0. cbn [run_stream app]. by rewrite E.
Qed.


(** A run that was not stopped raised at no block. *)
Lemma run_unstopped_none st front c rest st' :
  run_stream cb st (front ++ c :: rest) = (st', false) ->
  snd (cb (fst (run_stream cb st front)) c) = false.
Proof.
  rewrite run_app. destruct (run_stream cb st front) as [st0 stop] eqn:Hf.
  cbn [fst snd]. destruct stop; [done|]. cbn [run_stream].
  destruct (cb st0 c) as [st1 stop]. by destruct stop.
Qed.

End Run.

(** ** The callback, whatever its energy test *)

Section By.
Variables (below : chunk -> bool) (required min : Z).

Let cb := callback_by below required min.


Lemma by_chunks st indata :
  audio_chunks (fst (cb st indata)) = audio_chunks st ++ [indata].
Proof. reflexivity. Qed.


(** The buffer of a run that was not stopped: what it had, then every
    block. *)
Lemma run_by_unstopped_chunks st stream st' :
  run_stream cb st stream = (st', false) ->
  audio_chunks st' = audio_chunks st ++ stream.
Proof.
  revert st. induction stream as [|c stream IH]; intros st; cbn [run_stream].
  - intros [= <-]. by rewrite app_nil_r.
  - destruct (cb st c) as [st1 stop] eqn:E. destruct stop; [done|].
    intros H. apply IH in H. rewrite H.
    pose proof (by_chunks st c) as Hc. rewrite E in Hc. cbn [fst] in Hc.
    by rewrite Hc, <- app_assoc.
Qed.

Lemma run_by_loud st cs :
  0 < required -> silence_samples st = 0 -> Forall (fun c => below c = false) cs ->
  run_stream cb st cs = (MkCapture (audio_chunks st ++ cs) 0, false).
Proof.
  intros Hr. revert st. induction cs as [|c cs IH]; intros st Hs Hl.
  - cbn. rewrite app_nil_r. destruct st; cbn in *; by subst.
  - apply Forall_cons in Hl as [Hc Hl]. cbn [run_stream].
    unfold cb at 1, callback_by. rewrite Hc. cbn [andb].
    destruct (Z.leb_spec required 0); [lia|].
    rewrite IH by done. cbn. by rewrite <- app_assoc.
Qed.


End By.

End StreamFacts.

Module RecorderFacts.
Import Recorder StreamFacts.

(** ** The callback and the stream, on exact rationals *)

Section Stream.
Variables (silence_threshold : Q) (required min : Z).

Let cb := callback silence_threshold required min.

Lemma callback_stop st indata :
  snd (cb st indata) = (required <=? silence_samples (fst (cb st indata))).
Proof. reflexivity. Qed.

Lemma callback_counter st indata :
  silence_samples (fst (cb st indata)) =
  if rms_below indata silence_threshold
     && (min <? Z.of_nat (length (audio_chunks (fst (cb st indata)))))
  then silence_samples st + 1 else 0.
Proof. reflexivity. Qed.

Lemma run_loud st cs :
  0 < required -> silence_samples st = 0 -> Forall (loud silence_threshold) cs ->
  run_stream cb st cs = (MkCapture (audio_chunks st ++ cs) 0, false).
Proof.
  exact (run_by_loud (fun c => rms_below c silence_threshold) required min st cs).
Qed.

End Stream.

Lemma record_run (self : AudioRecorder) thr sd md stream :
  snd (record_with_silence_detection self thr sd md stream) =
  run_stream (callback thr (required_silence_samples self sd) (min_samples self md))
             start stream.
Proof.
  unfold record_with_silence_detection.
  destruct (run_stream _ _ _) as [st stopped]. by destruct (audio_chunks st).
Qed.

Example blocks_classified :
  rms_below loud_block (1 # 100) = false /\ rms_below quiet_block (1 # 100) = true.
Proof. by vm_compute. Qed.

End RecorderFacts.

Module Recorder64Facts.
Import Recorder Recorder64 StreamFacts.

(** The callback of the code is the open callback at the code's test. *)
Lemma callback64_by_test thr required min :
  callback thr required min = callback_by (fun c => rms_below c thr) required min.
Proof. reflexivity. Qed.


(** ** The literals of the source, and the thresholds they give *)

Example literals :
  literal 3 2 = f64 3 (-1) /\ literal 1 1 = f64 1 0 /\
  literal 1 100 = f64 5764607523034235 (-59) /\
  (to_Q (literal 1 100) == 5764607523034235 # 576460752303423488)%Q.
Proof. by vm_compute. Qed.

Example default_thresholds :
  required_silence_samples recorder (literal 3 2) = Some 23 /\
  min_samples recorder (literal 1 1) = Some 15.
Proof. by vm_compute. Qed.

(** Where the rounding shows: 0.576 s at 48 kHz is 27 blocks exactly, and
    the code finds 26; the float of 0.96 is a little less than 0.96 s, and
    at 16 kHz the code finds 15 blocks all the same. *)
Example rounded_thresholds :
  required_silence_samples (init (Some 48000) 1) (literal 576 1000) = Some 26 /\
  min_samples recorder (literal 96 100) = Some 15.
Proof. by vm_compute. Qed.

Example blocks_classified_by_the_code :
  rms_below loud_block (literal 1 100) = false /\
  rms_below quiet_block (literal 1 100) = true /\
  rms_below [] (literal 1 100) = false.
Proof. by vm_compute. Qed.

(** ** The claims on the recorder *)







End Recorder64Facts.

Module AgentFacts.
Import Text TextFacts Agent.

#[local] Arguments LLM.respond : simpl never.
#[local] Arguments LLM.start_interview : simpl never.

Lemma truthy_spec s : truthy s = true <-> s <> "".
Proof. by destruct s. Qed.

Lemma listen_heard self a text :
  a <> Recorder.NoAudio ->
  listen self a text =
  (set_transcript (transcript self ++ [Message "candidate" text]) self, text).
Proof. by destruct a. Qed.

Example init_known_voice :
  init LLM.init TTS.tts "orion" =
  Ok {| llm := LLM.init; tts := TTS.MkTTS "aura-orion-en";
        running := false; transcript := [] |}.
Proof. reflexivity. Qed.

(** ** The claims on the interactive loop *)


(** C10: the exit test is substring containment in the lowercased
    transcription.  Whenever one of exit, quit, stop interview, end
    interview occurs anywhere in it, the pass leaves the loop with the
    transcript grown by the candidate's text and the concluding line, in
    that order, and with the state machine, the voice and the running flag
    as they were: the chat service's answer is not read.  The utterance
    "That is quite hard to say" is such a case: quit occurs in it only
    inside quite. *)
Theorem exit_command_is_substring :
  (forall self inp,
     audio_bytes inp <> Recorder.NoAudio -> heard inp <> "" ->
     (exists w, In w exit_commands /\ Substring w (lower (heard inp))) ->
     snd (loop_body self inp) = Break /\
     transcript (fst (loop_body self inp)) =
       transcript self
       ++ [ Message "candidate" (heard inp);
            Message "interviewer"
              "Thank you for your time. The interview is now concluded." ] /\
     llm (fst (loop_body self inp)) = llm self /\
     tts (fst (loop_body self inp)) = tts self /\
     running (fst (loop_body self inp)) = running self) /\
  (let utterance := "That is quite hard to say" in
   lower utterance = "that is " +:+ "quit" +:+ "e hard to say" /\
   forall self nchannels sampwidth framerate frames reply rest,
     let inp :=
       TurnInput (Recorder.Wav nchannels sampwidth framerate frames)
                 utterance reply in
     let spoken :=
       [ Message "candidate" utterance;
         Message "interviewer"
           "Thank you for your time. The interview is now concluded." ] in
     snd (loop_body self inp) = Break /\
     transcript (fst (loop_body self inp)) = transcript self ++ spoken /\
     llm (fst (loop_body self inp)) = llm self /\
     (running self = true -> LLM.is_interview_complete (llm self) = false ->
      interview_loop self (inp :: rest) = fst (loop_body self inp) /\
      transcript (interview_loop self (inp :: rest)) = transcript self ++ spoken /\
      llm (interview_loop self (inp :: rest)) = llm self)).
Proof.
  assert (Hbody : forall self inp,
    audio_bytes inp <> Recorder.NoAudio -> heard inp <> "" ->
    (exists w, In w exit_commands /\ Substring w (lower (heard inp))) ->
    loop_body self inp =
    (MkAgent (llm self) (tts self) (running self)
       (transcript self
        ++ [ Message "candidate" (heard inp);
             Message "interviewer"
               "Thank you for your time. The interview is now concluded." ]),
     Break)).
  { intros self [a text reply] Ha Ht Hw. cbn [audio_bytes heard] in *.
    unfold loop_body. cbn [audio_bytes heard Agent.reply].
    rewrite listen_heard by done.
    apply truthy_spec in Ht. rewrite Ht. cbn [negb].
    apply any_in_spec in Hw. rewrite Hw.
    unfold speak, set_transcript. cbn. by rewrite <- app_assoc. }
  split.
  - intros self inp Ha Ht Hw. by rewrite (Hbody self inp Ha Ht Hw).
  - cbn zeta. split; [done|].
    intros self nch sw fr frames reply rest.
    assert (Hb : loop_body self
                   (TurnInput (Recorder.Wav nch sw fr frames)
                      "That is quite hard to say" reply) =
                 (MkAgent (llm self) (tts self) (running self)
                    (transcript self
                     ++ [ Message "candidate" "That is quite hard to say";
                          Message "interviewer"
                            "Thank you for your time. The interview is now concluded." ]),
                  Break)).
    { apply Hbody; [done | done |].
      exists "quit". split; [cbn; tauto|].
      by exists "that is ", "e hard to say". }
    rewrite Hb. split; [done|]. split; [done|]. split; [done|].
    intros Hr Hc. cbn [interview_loop]. by rewrite Hb, Hr, Hc.
Qed.

Lemma exit_command_is_substring_witness :
  audio_bytes (TurnInput a_recording "Please do not quit on me" "") <> Recorder.NoAudio /\
  snd (loop_body opened (TurnInput a_recording "Please do not quit on me" "")) = Break /\
  transcript
    (fst (loop_body opened (TurnInput a_recording "Please do not quit on me" ""))) =
  [ Message "interviewer" "Hi Alex, good to meet you. Tell me about your background?";
    Message "candidate" "Please do not quit on me";
    Message "interviewer" "Thank you for your time. The interview is now concluded." ].
Proof.
  assert (Ha : audio_bytes (TurnInput a_recording "Please do not quit on me" "")
               <> Recorder.NoAudio) by done.
  split; [exact Ha|].
  destruct (proj1 exit_command_is_substring opened
              (TurnInput a_recording "Please do not quit on me" "") Ha)
    as (Hb & Ht & _).
  - done.
  - exists "quit". split; [cbn; tauto|].
    by exists "please do not ", " on me".
  - split; [exact Hb|]. rewrite Ht. reflexivity.
Defined.

End AgentFacts.

Module ServerFacts.
Import Text TextFacts Server.

#[local] Arguments LLM.respond : simpl never.
#[local] Arguments LLM.start_interview : simpl never.
#[local] Arguments LLM.get_state : simpl never.

Lemma start_interview_lookup sessions sid request opening_reply audio_bytes :
  fst (start_interview sessions sid request opening_reply audio_bytes) !! sid =
  Some {| llm := fst (LLM.start_interview LLM.init (rq_candidate_name request)
                        (rq_role request) opening_reply);
          tts := TTS.init (rq_voice request);
          candidate_name := rq_candidate_name request;
          role := rq_role request;
          transcript :=
            [Message "interviewer"
               (snd (LLM.start_interview LLM.init (rq_candidate_name request)
                       (rq_role request) opening_reply))] |}.
Proof.
  unfold start_interview.
  destruct (LLM.start_interview _ _ _ _) as [l opening]. cbn.
  by rewrite lookup_insert_eq.
Qed.

(** ** The claims on the registry *)

(** C2 as stated fails: [end_interview] leaves the entry in the registry,
    and the state of the ended session can still be read. *)
Lemma ended_session_is_still_found :
  let sessions := fst (end_interview one_session "s1") in
  sessions = one_session /\
  exists view, get_interview_state sessions "s1" = Ok view.
Proof.
  cbn zeta. unfold end_interview, get_interview_state, one_session.
  rewrite start_interview_lookup. cbn [fst].
  split; [done|]. rewrite start_interview_lookup. eauto.
Qed.

(** C2, as the code has it: on an id the registry does not hold,
    [get_interview_state], [end_interview] and [respond_to_audio] all answer
    404, session not found, and change nothing; [end_interview] on a known id
    returns the transcript and the state and leaves the registry as it was,
    so the session is still found afterwards. *)
Theorem session_lookup (sessions : registry) (sid : string) :
  (sessions !! sid = None ->
     get_interview_state sessions sid = not_found /\
     end_interview sessions sid = (sessions, not_found) /\
     forall text reply audio,
       respond_to_audio sessions sid text reply audio = (sessions, not_found)) /\
  fst (end_interview sessions sid) = sessions /\
  (forall session, sessions !! sid = Some session ->
     snd (end_interview sessions sid) =
       Ok ("Interview ended", transcript session, LLM.get_state (llm session)) /\
     get_interview_state (fst (end_interview sessions sid)) sid =
       Ok (LLM.get_state (llm session), transcript session)).
Proof.
  unfold get_interview_state, end_interview, respond_to_audio.
  split; [|split].
  - by intros ->.
  - by destruct (sessions !! sid).
  - intros session Hs. rewrite Hs. cbn. by rewrite Hs.
Qed.

Lemma session_lookup_witness :
  one_session !! "s2" = None /\
  get_interview_state one_session "s2" = not_found.
Proof.
  assert (H : one_session !! "s2" = None) by (by vm_compute).
  split; [exact H|].
  exact (proj1 (proj1 (session_lookup one_session "s2") H)).
Defined.

(** C6 as stated fails: a session started with a voice that is not in
    the table is created all the same, and its opening is synthesized with
    the configured default voice. *)
Lemma unknown_voice_starts_session :
  let request := StartRequest "Alex" "Backend Engineer" "robot" in
  TTS.dict_get TTS.AURA_VOICES "robot" = None /\
  (exists session,
     fst (start_interview ∅ "s1" request "Hello Alex." []) !! "s1" = Some session /\
     TTS.model (tts session) = "aura-asteria-en") /\
  TTS.rq_model (start_interview_speaks request "Hello Alex.") = "aura-asteria-en".
Proof.
  cbn zeta. split; [done|]. split; [|done].
  rewrite start_interview_lookup. eauto.
Qed.

(** C6, as the code has it: [set_voice] checks the selector against the
    voice table before anything is sent: a known selector selects its
    model, an unknown one raises [ValueError] and so does building the
    interactive agent with it.  Constructing [DeepgramTTS] with an unknown
    selector does not fail but takes the configured default model, so a
    session started over the request surface with an unknown voice is
    created and speaks with the default voice. *)
Theorem voice_validation (voice : string) :
  (forall m, TTS.dict_get TTS.AURA_VOICES voice = Some m ->
     (forall tts, TTS.set_voice tts voice = Ok (TTS.MkTTS m)) /\
     TTS.init voice = TTS.MkTTS m) /\
  (TTS.dict_get TTS.AURA_VOICES voice = None ->
     (forall tts, exists msg, TTS.set_voice tts voice = Raise (ValueError msg)) /\
     (forall llm tts, exists msg, Agent.init llm tts voice = Raise (ValueError msg)) /\
     TTS.init voice = TTS.MkTTS Config.DEEPGRAM_TTS_MODEL /\
     (forall sessions sid name role opening_reply audio_bytes,
        let request := StartRequest name role voice in
        (exists session,
           fst (start_interview sessions sid request opening_reply audio_bytes)
             !! sid = Some session /\
           TTS.model (tts session) = Config.DEEPGRAM_TTS_MODEL) /\
        TTS.rq_model (start_interview_speaks request opening_reply) =
          Config.DEEPGRAM_TTS_MODEL)).
Proof.
  split.
  - intros m Hm. unfold TTS.set_voice, TTS.init. by rewrite Hm.
  - intros Hn.
    assert (Hset : forall tts, exists msg,
               TTS.set_voice tts voice = Raise (ValueError msg)).
    { intros tts. unfold TTS.set_voice. rewrite Hn. eauto. }
    assert (Hinit : TTS.init voice = TTS.MkTTS Config.DEEPGRAM_TTS_MODEL).
    { unfold TTS.init. by rewrite Hn. }
    split; [done|]. split; [|split; [done|]].
    + intros llm tts. unfold Agent.init.
      destruct (Hset tts) as [msg ->]. eauto.
    + intros sessions sid name role opening_reply audio_bytes request.
      split.
      * rewrite start_interview_lookup. eexists. split; [done|].
        cbn [tts rq_voice request]. by rewrite Hinit.
      * unfold start_interview_speaks, TTS.synthesize_request.
        cbn [TTS.rq_model rq_voice request]. by rewrite Hinit.
Qed.

Lemma voice_validation_witness :
  TTS.dict_get TTS.AURA_VOICES "robot" = None /\
  TTS.init "robot" = TTS.MkTTS Config.DEEPGRAM_TTS_MODEL.
Proof.
  assert (H : TTS.dict_get TTS.AURA_VOICES "robot" = None) by reflexivity.
  split; [exact H|].
  exact (proj1 (proj2 (proj2 (proj2 (voice_validation "robot") H)))).
Defined.

(** ** The claim on transcript entries *)



End ServerFacts.

(* ===================================================================== *)
(** * Further properties of the state machine                            *)
(* ===================================================================== *)

Module StateMachineProps.
Import Text LLM TextFacts LLMFacts.

#[local] Arguments opens_topic : simpl never.
#[local] Arguments closes_interview : simpl never.
#[local] Arguments state_context : simpl never.
#[local] Arguments strip : simpl never.

Lemma respond_config self u r :
  model (fst (respond self u r)) = model self /\
  system_prompt (fst (respond self u r)) = system_prompt self.
Proof. by respond_cases. Qed.

Lemma respond_all_config self calls :
  model (respond_all self calls) = model self /\
  system_prompt (respond_all self calls) = system_prompt self.
Proof.
  revert self. induction calls as [|c calls IH]; intros self; [done|].
  rewrite respond_all_cons.
  destruct (IH (fst (respond self c.1 c.2))) as [-> ->].
  apply respond_config.
Qed.

Lemma respond_text self u r : snd (respond self u r) = strip r.
Proof. by respond_cases. Qed.

(** X1: starting an interview on an object that already ran one discards
    everything the earlier interview left: the result is the one a fresh
    object gives. *)
Theorem restart_discards_session
    (candidate_name role opening : string) (calls : list call)
    (candidate_name' role' opening' : string) :
  start_interview (session_after candidate_name role opening calls)
                  candidate_name' role' opening' =
  start_interview init candidate_name' role' opening'.
Proof.
  unfold session_after.
  destruct (respond_all_config
              (fst (start_interview init candidate_name role opening)) calls)
    as [Hm Hp].
  unfold start_interview at 1 3. unfold reset. by rewrite Hm, Hp.
Qed.

(** X2: the history is append-only and ordered: a sequence of [respond]
    calls leaves the earlier history in place and appends, call by call, the
    candidate's text and then the reply; after [start_interview] it is the
    opening followed by these pairs. *)
Theorem history_is_interleaving (self : GroqLLM)
    (candidate_name role opening : string) (calls : list call) :
  let turns :=
    flat_map (fun c => [Message "user" (fst c); Message "assistant" (snd c)]) calls in
  conversation_history (respond_all self calls) =
    conversation_history self ++ turns /\
  conversation_history (session_after candidate_name role opening calls) =
    Message "assistant" opening :: turns.
Proof.
  cbn zeta.
  assert (H : forall s,
    conversation_history (respond_all s calls) =
    conversation_history s ++
    flat_map (fun c => [Message "user" (fst c); Message "assistant" (snd c)]) calls).
  { induction calls as [|c calls IH] using rev_ind; intros s.
    - cbn. by rewrite app_nil_r.
    - rewrite respond_all_snoc, respond_history, IH, flat_map_app. cbn.
      by rewrite ?app_nil_r, <- app_assoc. }
  split; [apply H|]. unfold session_after. by rewrite H.
Qed.

(** X3: [question_count] counts the [respond] calls and
    [main_questions_asked] the replies classified as opening a topic; in a
    session started by [start_interview] the topics opened lie between 1
    and one more than the turns taken. *)
Theorem counters_count (self : GroqLLM)
    (candidate_name role opening : string) (calls : list call) :
  question_count (respond_all self calls) =
    question_count self + Z.of_nat (length calls) /\
  main_questions_asked (respond_all self calls) =
    main_questions_asked self
    + Z.of_nat (length (List.filter (fun c => opens_topic (snd c)) calls)) /\
  (let s := session_after candidate_name role opening calls in
   question_count s = Z.of_nat (length calls) /\
   1 <= main_questions_asked s <= question_count s + 1).
Proof.
  assert (H : forall s,
    question_count (respond_all s calls) =
      question_count s + Z.of_nat (length calls) /\
    main_questions_asked (respond_all s calls) =
      main_questions_asked s
      + Z.of_nat (length (List.filter (fun c => opens_topic (snd c)) calls))).
  { induction calls as [|c calls IH]; intros s; [cbn; lia|].
    rewrite respond_all_cons.
    destruct (IH (fst (respond s c.1 c.2))) as [-> ->].
    rewrite respond_question_count, respond_main_questions.
    cbn [length List.filter]. destruct (opens_topic c.2); cbn [length]; lia. }
  destruct (H self) as [Hq Hm]. split; [done|]. split; [done|].
  cbn zeta. unfold session_after.
  destruct (H (fst (start_interview init candidate_name role opening)))
    as [-> ->].
  change (question_count (fst (start_interview init candidate_name role opening)))
    with 0.
  change (main_questions_asked
            (fst (start_interview init candidate_name role opening))) with 1.
  match goal with
  | |- context [length (List.filter ?f calls)] =>
      pose proof (filter_length_le f calls) as Hle
  end.
  unfold call in *. split; lia.
Qed.

(** One [respond] keeps the level in agreement with the rest of the state. *)
Lemma respond_level_cases (s : GroqLLM) (u r : string) :
  (satisfaction_level s = "gathering_info" /\
     main_questions_asked s < 3 /\ interview_satisfied s = false) \/
  (satisfaction_level s = "almost_satisfied" /\ 3 <= main_questions_asked s) \/
  (satisfaction_level s = "satisfied" /\ interview_satisfied s = true) ->
  let s' := fst (respond s u r) in
  (satisfaction_level s' = "gathering_info" /\
     main_questions_asked s' < 3 /\ interview_satisfied s' = false) \/
  (satisfaction_level s' = "almost_satisfied" /\ 3 <= main_questions_asked s') \/
  (satisfaction_level s' = "satisfied" /\ interview_satisfied s' = true).
Proof.
  intros IH. cbn zeta.
  pose proof (respond_level s u r) as Hl.
  pose proof (respond_satisfied s u r) as Hs.
  pose proof (respond_main_questions s u r) as Hm.
  destruct (closes_interview r).
  - right. right. rewrite Hl, Hs. by rewrite orb_true_r.
  - rewrite orb_false_r in Hs.
    destruct (Z.leb_spec 3 (main_questions_asked (fst (respond s u r)))).
    + right. left. by rewrite Hl.
    + rewrite Hl, Hs.
      destruct IH as [(?&?&?)|[(?&?)|(?&?)]].
      * left. done.
      * destruct (opens_topic r); lia.
      * right. right. done.
Qed.

(** X4: in a session started by [start_interview] the level is one of the
    three names, and it agrees with the rest of the state: gathering_info
    only while fewer than 3 topics are opened and no reply has closed,
    almost_satisfied only with 3 topics or more, satisfied only when the
    interview is complete. *)
Theorem level_agrees_with_state
    (candidate_name role opening : string) (calls : list call) :
  let s := session_after candidate_name role opening calls in
  (satisfaction_level s = "gathering_info" /\
     main_questions_asked s < 3 /\ interview_satisfied s = false) \/
  (satisfaction_level s = "almost_satisfied" /\ 3 <= main_questions_asked s) \/
  (satisfaction_level s = "satisfied" /\ interview_satisfied s = true).
Proof.
  cbn zeta. unfold session_after.
  induction calls as [|c calls IH] using rev_ind.
  - left. by cbn.
  - rewrite respond_all_snoc. by apply respond_level_cases.
Qed.

(** X5: a session is complete exactly when one of the replies so far
    contained, lowercased, one of the ending phrases. *)
Theorem complete_iff_some_reply_closed
    (candidate_name role opening : string) (calls : list call) :
  interview_satisfied (session_after candidate_name role opening calls) = true <->
  exists c p, In c calls /\ In p ending_phrases /\ Substring p (lower (snd c)).
Proof.
  unfold session_after. rewrite respond_all_satisfied.
  change (interview_satisfied (fst (start_interview init candidate_name role opening)))
    with false.
  rewrite orb_false_l, existsb_exists. split.
  - intros (c & Hin & Hc). apply closes_interview_spec in Hc as (p & Hp & Hsub).
    by exists c, p.
  - intros (c & p & Hin & Hp & Hsub). exists c. split; [done|].
    apply closes_interview_spec. by exists p.
Qed.

(** ** The instruction sent with a request *)






(** ** Case *)

Lemma lower_char_idem c : lower_char (lower_char c) = lower_char c.
Proof. by destruct c as [[] [] [] [] [] [] [] []]. Qed.

Lemma lower_idem s : lower (lower s) = lower s.
Proof. induction s as [|c s IH]; [done|]. cbn. by rewrite lower_char_idem, IH. Qed.

Lemma question_mark_lower c :
  Ascii.eqb "?" (lower_char c) = Ascii.eqb "?" c.
Proof. by destruct c as [[] [] [] [] [] [] [] []]. Qed.

Lemma contains_question_lower s : contains "?" (lower s) = contains "?" s.
Proof.
  induction s as [|c s IH]; [done|].
  cbn [lower contains starts_with]. by rewrite question_mark_lower, IH.
Qed.

(** X7: the two classifiers do not see letter case: replies that agree
    once lowercased are classified alike, and a reply is classified as its
    lowercased text is. *)
Theorem classification_ignores_case (reply reply' : string) :
  lower reply = lower reply' ->
  opens_topic reply = opens_topic reply' /\
  closes_interview reply = closes_interview reply' /\
  opens_topic (lower reply) = opens_topic reply /\
  closes_interview (lower reply) = closes_interview reply.
Proof.
  intros H. unfold opens_topic, closes_interview.
  rewrite <- (contains_question_lower reply), <- (contains_question_lower reply').
  rewrite <- (contains_question_lower (lower reply)).
  by rewrite !lower_idem, H.
Qed.

Lemma classification_ignores_case_witness :
  lower "BEST OF LUCK, Alex!" = lower "best of luck, alex!" /\
  closes_interview "BEST OF LUCK, Alex!" = closes_interview "best of luck, alex!".
Proof.
  assert (H : lower "BEST OF LUCK, Alex!" = lower "best of luck, alex!")
    by reflexivity.
  split; [exact H|].
  exact (proj1 (proj2 (classification_ignores_case _ _ H))).
Defined.

(** ** Whitespace *)

Lemma lstrip_head s c rest : lstrip s = String c rest -> is_space c = false.
Proof.
  induction s as [|a s IH]; cbn; [done|].
  destruct (is_space a) eqn:E; [done|]. by intros [= <- _].
Qed.

Lemma lstrip_fixed c s : is_space c = false -> lstrip (String c s) = String c s.
Proof. intros H. cbn. by rewrite H. Qed.

Lemma rstrip_head c s :
  is_space c = false -> exists r, rstrip (String c s) = String c r.
Proof.
  intros H. cbn. destruct (rstrip s); [rewrite H|]; eauto.
Qed.

Lemma rstrip_last s pre c :
  rstrip s = pre +:+ String c "" -> is_space c = false.
Proof.
  revert pre. induction s as [|a s IH]; intros pre; cbn.
  - by destruct pre.
  - destruct (rstrip s) as [|b r] eqn:E.
    + destruct (is_space a) eqn:Ea; [by destruct pre|].
      destruct pre as [|p pre]; cbn; [by intros [= <-]|].
      intros [= _ H]. by destruct pre.
    + destruct pre as [|p pre]; cbn; [done|].
      intros [= _ H]. by apply (IH pre).
Qed.

Lemma rstrip_idem s : rstrip (rstrip s) = rstrip s.
Proof.
  induction s as [|a s IH]; [done|]. cbn.
  destruct (rstrip s) as [|b r] eqn:E.
  - destruct (is_space a) eqn:Ea; [done|]. cbn. by rewrite Ea.
  - cbn [rstrip] in *. by rewrite IH.
Qed.

Lemma strip_head s c rest : strip s = String c rest -> is_space c = false.
Proof.
  unfold strip. destruct (lstrip s) as [|a t] eqn:E; [done|].
  apply lstrip_head in E. destruct (rstrip_head a t E) as [r ->].
  by intros [= <- _].
Qed.

Lemma strip_idem s : strip (strip s) = strip s.
Proof.
  unfold strip. destruct (lstrip s) as [|a t] eqn:E; [done|].
  apply lstrip_head in E. destruct (rstrip_head a t E) as [r Hr].
  rewrite Hr, (lstrip_fixed a r E), <- Hr. apply rstrip_idem.
Qed.

(** X8: what [start_interview] and [respond] return is the reply without
    the whitespace around it: it neither begins nor ends with a whitespace
    character, and stripping it again changes nothing. *)
Theorem spoken_text_is_trimmed (self : GroqLLM) (a b reply : string) :
  snd (respond self a reply) = strip reply /\
  snd (start_interview self a b reply) = strip reply /\
  strip (strip reply) = strip reply /\
  (forall c rest, strip reply = String c rest -> is_space c = false) /\
  (forall pre c, strip reply = pre +:+ String c "" -> is_space c = false).
Proof.
  split; [apply respond_text|]. split; [done|]. split; [apply strip_idem|].
  split; [apply strip_head|]. intros pre c. apply rstrip_last.
Qed.

(** X9: the state view handed to the caller is coherent and only moves
    forward: over further turns of a session the two counters do not
    decrease and [can_prompt_end] and [is_complete], once true, stay true;
    [can_prompt_end] says that 3 topics or more are opened, it is true
    whenever the level is almost_satisfied, and with the level at
    gathering_info it is false and the interview is not complete. *)
Theorem state_view_is_coherent
    (candidate_name role opening : string) (calls more : list call) :
  let v := get_state (session_after candidate_name role opening calls) in
  let v' := get_state (session_after candidate_name role opening (calls ++ more)) in
  sv_question_count v <= sv_question_count v' /\
  sv_main_questions_asked v <= sv_main_questions_asked v' /\
  (sv_can_prompt_end v = true -> sv_can_prompt_end v' = true) /\
  (sv_is_complete v = true -> sv_is_complete v' = true) /\
  (sv_can_prompt_end v = true <-> 3 <= sv_main_questions_asked v) /\
  (sv_satisfaction_level v = "almost_satisfied" -> sv_can_prompt_end v = true) /\
  (sv_satisfaction_level v = "gathering_info" ->
   sv_can_prompt_end v = false /\ sv_is_complete v = false).
Proof.
  cbn zeta. unfold get_state, can_prompt_end, is_interview_complete.
  cbn [sv_question_count sv_main_questions_asked sv_satisfaction_level
       sv_can_prompt_end sv_is_complete].
  assert (Happ : session_after candidate_name role opening (calls ++ more) =
                 respond_all (session_after candidate_name role opening calls) more).
  { unfold session_after, respond_all. by rewrite fold_left_app. }
  rewrite Happ.
  set (s := session_after candidate_name role opening calls).
  pose proof (respond_all_main_questions_mono s more) as Hm.
  pose proof (respond_all_satisfied s more) as Hs.
  assert (Hq : forall s0, question_count (respond_all s0 more) =
                          question_count s0 + Z.of_nat (length more)).
  { clear. induction more as [|c more IH]; intros s0; [cbn; lia|].
    rewrite respond_all_cons, IH, respond_question_count. cbn [length]. lia. }
  specialize (Hq s).
  assert (Hl :
    (satisfaction_level s = "gathering_info" /\
       main_questions_asked s < 3 /\ interview_satisfied s = false) \/
    (satisfaction_level s = "almost_satisfied" /\ 3 <= main_questions_asked s) \/
    (satisfaction_level s = "satisfied" /\ interview_satisfied s = true)).
  { subst s. unfold session_after. clear.
    induction calls as [|c calls IH] using rev_ind; [left; by cbn|].
    rewrite respond_all_snoc. by apply respond_level_cases. }
  split; [lia|]. split; [done|].
  split; [rewrite !Z.leb_le; lia|].
  split; [intros H; by rewrite Hs, H|].
  split; [apply Z.leb_le|].
  split.
  - intros H. apply Z.leb_le.
    destruct Hl as [(E&_)|[(_&?)|(E&_)]]; [congruence | done | congruence].
  - intros H.
    destruct Hl as [(_&?&?)|[(E&_)|(E&_)]]; [|congruence|congruence].
    split; [by apply Z.leb_gt | done].
Qed.

End StateMachineProps.

(* ===================================================================== *)
(** * Further properties of the recorder                                 *)
(* ===================================================================== *)

Module RecorderProps.
Import Recorder RecorderFacts.

(** ** The counter *)

Section Counter.
Variables (silence_threshold : Q) (required min : Z).

Let cb := callback silence_threshold required min.

Lemma callback_counted st indata : counted silence_threshold st ->
  counted silence_threshold (fst (cb st indata)).
Proof.
  intros [Hb Hq]. unfold counted, cb, callback. cbn [fst audio_chunks silence_samples].
  rewrite length_app. cbn [length].
  destruct (rms_below indata silence_threshold) eqn:Eq; cbn [andb];
    [destruct (min <? _)|].
  - split; [lia|].
    replace (length (audio_chunks st) + 1 - Z.to_nat (silence_samples st + 1))%nat
      with (length (audio_chunks st) - Z.to_nat (silence_samples st))%nat by lia.
    rewrite drop_app_le by lia. apply Forall_app. split; [done|].
    by apply Forall_singleton.
  - split; [lia|]. cbn. rewrite Nat.sub_0_r, drop_ge; [done|].
    rewrite length_app. cbn. lia.
  - split; [lia|]. cbn. rewrite Nat.sub_0_r, drop_ge; [done|].
    rewrite length_app. cbn. lia.
Qed.

Lemma run_stream_counted st stream :
  counted silence_threshold st ->
  (1 <= required -> silence_samples st < required) ->
  let r := run_stream cb st stream in
  counted silence_threshold (fst r) /\
  (1 <= required ->
   if snd r then silence_samples (fst r) = required
   else silence_samples (fst r) < required).
Proof.
  revert st. induction stream as [|c stream IH]; intros st Hc Hlt; [done|].
  cbn [run_stream].
  pose proof (callback_counted st c Hc) as Hc'.
  pose proof (callback_stop silence_threshold required min st c) as Hstop.
  pose proof (callback_counter silence_threshold required min st c) as Hcnt.
  fold cb in Hstop, Hcnt.
  destruct (cb st c) as [st1 stop]. cbn [fst snd] in *.
  destruct stop.
  - cbn [fst snd]. split; [done|]. intros Hr. specialize (Hlt Hr).
    symmetry in Hstop. apply Z.leb_le in Hstop.
    destruct (_ && _); lia.
  - apply IH; [done|]. intros _. symmetry in Hstop. by apply Z.leb_gt in Hstop.
Qed.

End Counter.

(** X11: throughout a recording the counter of quiet blocks is between 0
    and the number of buffered blocks, and that many blocks at the end of
    the buffer are quiet.  When at least one quiet block is required, the
    callback stops the stream with the counter exactly at the required
    count, so the recording then ends with that many quiet blocks, and a
    recording it did not stop ends with the counter below it. *)
Theorem stop_means_trailing_silence (self : AudioRecorder)
    (silence_threshold silence_duration min_duration : Q) (stream : list chunk) :
  let required := required_silence_samples self silence_duration in
  let '(_, (st, stopped)) :=
    record_with_silence_detection self silence_threshold silence_duration
      min_duration stream in
  0 <= silence_samples st <= Z.of_nat (length (audio_chunks st)) /\
  Forall (quiet silence_threshold)
    (drop (length (audio_chunks st) - Z.to_nat (silence_samples st))
          (audio_chunks st)) /\
  (1 <= required ->
   if stopped then silence_samples st = required
   else silence_samples st < required).
Proof.
  intros required.
  pose proof (record_run self silence_threshold silence_duration min_duration
                stream) as Hrun.
  destruct (record_with_silence_detection _ _ _ _ _) as [a [st stopped]].
  cbn [snd] in Hrun.
  assert (H0 : counted silence_threshold start)
    by (split; [by cbn | by constructor]).
  assert (H1 : 1 <= required -> silence_samples start < required)
    by (cbn; lia).
  pose proof (run_stream_counted silence_threshold required
                (min_samples self min_duration) start stream H0 H1) as H.
  fold required in Hrun. rewrite <- Hrun in H. cbn [fst snd] in H.
  by destruct H as [[Hb Hq] Hs].
Qed.

(** ** Thresholds *)

Lemma rms_below_nonpositive (c : chunk) (thr : Q) :
  (thr <= 0)%Q -> rms_below c thr = false.
Proof.
  intros H. unfold rms_below. destruct c; [done|].
  apply Qle_bool_iff in H. unfold Qltb. rewrite H. cbn.
  by rewrite andb_false_r.
Qed.

(** X12: if at least one quiet block is required and no block of the
    stream is quiet (as when the threshold is not positive), the callback
    never stops the stream: every block is buffered and the counter ends at
    zero. *)
Theorem no_quiet_block_no_stop (self : AudioRecorder)
    (silence_threshold silence_duration min_duration : Q) (stream : list chunk) :
  1 <= required_silence_samples self silence_duration ->
  (silence_threshold <= 0)%Q \/ Forall (loud silence_threshold) stream ->
  snd (record_with_silence_detection self silence_threshold silence_duration
         min_duration stream) = (MkCapture stream 0, false).
Proof.
  intros Hr Hl. rewrite record_run.
  rewrite run_loud; [done | lia | done |].
  destruct Hl as [Hl|Hl]; [|done].
  apply Forall_forall. intros c _. by apply rms_below_nonpositive.
Qed.

Lemma no_quiet_block_no_stop_witness :
  1 <= required_silence_samples recorder (3 # 2) /\
  Forall (loud (1 # 100)) [loud_block; loud_block] /\
  snd (record_with_silence_detection recorder (1 # 100) (3 # 2) 1
         [loud_block; loud_block]) = (MkCapture [loud_block; loud_block] 0, false).
Proof.
  assert (H1 : 1 <= required_silence_samples recorder (3 # 2)) by (by vm_compute).
  assert (H2 : Forall (loud (1 # 100)) [loud_block; loud_block]).
  { repeat constructor; by vm_compute. }
  split; [exact H1|]. split; [exact H2|].
  exact (no_quiet_block_no_stop recorder (1 # 100) (3 # 2) 1
           [loud_block; loud_block] H1 (or_intror H2)).
Defined.

(** ** The energy test on int16 samples *)

Lemma mean_facts (xs : list Z) :
  xs <> [] ->
  (Qle_bool 0 (mean xs) = true <-> 0 <= sum xs) /\
  forall t : Q,
    (mean xs < t)%Q <-> (inject_Z (sum xs) < t * inject_Z (Z.of_nat (length xs)))%Q.
Proof.
  intros Hne. unfold mean.
  assert (Hlen : 0 < Z.of_nat (length xs)) by (destruct xs; [done | cbn; lia]).
  destruct (Z.of_nat (length xs)) as [|n|n]; [lia| |lia].
  split.
  - rewrite Qle_bool_iff. unfold Qle, Qdiv, Qmult, Qinv, inject_Z. cbn. lia.
  - intros [p q]. unfold Qlt, Qdiv, Qmult, Qinv, inject_Z. cbn.
    rewrite ?Pos2Z.inj_mul. split; nia.
Qed.

Lemma Qltb_lt (a b : Q) : Qltb a b = true <-> (a < b)%Q.
Proof.
  unfold Qltb. rewrite negb_true_iff, <- not_true_iff_false, Qle_bool_iff.
  split; [apply Qnot_le_lt | apply Qlt_not_le].
Qed.

Lemma rms_below_spec (c : chunk) (thr : Q) :
  rms_below c thr = true <->
  c <> [] /\ 0 <= sum (squares c) /\ (0 < thr)%Q /\
  (inject_Z (sum (squares c))
   < thr * thr * inject_Z (Z.of_nat (length c)))%Q.
Proof.
  unfold rms_below. destruct c as [|x c]; [by split; [|intros [? _]]|].
  assert (Hne : squares (x :: c) <> []) by done.
  destruct (mean_facts _ Hne) as [H0 Hlt].
  rewrite !andb_true_iff, H0, !Qltb_lt, Hlt.
  unfold squares at 3. rewrite length_map. split.
  - by intros [[? ?] ?].
  - by intros (_ & ? & ? & ?).
Qed.

(** X13: when the threshold is positive and so small that its square
    times the block length is at most 1 (0.01 on blocks of 1024 samples,
    as the loop uses), a block is below the threshold exactly when its
    int16 squares sum to zero: only exact digital silence counts as
    quiet. *)
Theorem small_threshold_means_exact_silence (c : chunk) (thr : Q) :
  c <> [] -> (0 < thr)%Q ->
  (thr * thr * inject_Z (Z.of_nat (length c)) <= 1)%Q ->
  rms_below c thr = true <-> sum (squares c) = 0.
Proof.
  intros Hne Hpos Hsmall. rewrite rms_below_spec. split.
  - intros (_ & H0 & _ & Hlt).
    assert (Hone : (inject_Z (sum (squares c)) < inject_Z 1)%Q)
      by (eapply Qlt_le_trans; [exact Hlt | exact Hsmall]).
    rewrite <- Zlt_Qlt in Hone. lia.
  - intros ->. split; [done|]. split; [done|]. split; [done|].
    assert (Hlen : (0 < inject_Z (Z.of_nat (length c)))%Q).
    { rewrite <- (Zlt_Qlt 0). destruct c; [done | cbn; lia]. }
    change (inject_Z 0) with 0%Q.
    apply Qmult_lt_0_compat; [|done]. by apply Qmult_lt_0_compat.
Qed.

Lemma small_threshold_means_exact_silence_witness :
  quiet_block <> [] /\ (0 < 1 # 100)%Q /\
  ((1 # 100) * (1 # 100) * inject_Z (Z.of_nat (length quiet_block)) <= 1)%Q /\
  (rms_below quiet_block (1 # 100) = true <-> sum (squares quiet_block) = 0).
Proof.
  assert (H1 : quiet_block <> []) by done.
  assert (H2 : (0 < 1 # 100)%Q) by reflexivity.
  assert (H3 : ((1 # 100) * (1 # 100)
                * inject_Z (Z.of_nat (length quiet_block)) <= 1)%Q)
    by (by vm_compute).
  split; [exact H1|]. split; [exact H2|]. split; [exact H3|].
  exact (small_threshold_means_exact_silence quiet_block (1 # 100) H1 H2 H3).
Defined.

Lemma wrap16_square_256 (x : Z) : (256 | x) -> wrap16 (x * x) = 0.
Proof.
  intros [k ->]. unfold wrap16.
  replace (k * 256 * (k * 256) + 32768) with (32768 + (k * k) * 65536) by lia.
  by rewrite Z_mod_plus_full.
Qed.

(** X14: the squares are taken in int16 and wrap around: a block whose
    samples are all multiples of 256, however loud, has squares that are
    all zero and is below every positive threshold. *)
Theorem overflow_hides_loud_blocks (c : chunk) (thr : Q) :
  c <> [] -> (0 < thr)%Q -> Forall (fun x => (256 | x)) c ->
  squares c = repeat 0 (length c) /\ rms_below c thr = true.
Proof.
  intros Hne Hpos Hall.
  assert (Hsq : squares c = repeat 0 (length c)).
  { clear Hne. induction Hall as [|x c Hx Hc IH]; [done|].
    cbn. by rewrite wrap16_square_256, <- IH. }
  split; [done|].
  assert (Hsum : sum (squares c) = 0).
  { rewrite Hsq. clear. unfold sum.
    induction (length c) as [|n IH]; [done|]. cbn. by rewrite IH. }
  rewrite rms_below_spec, Hsum. split; [done|]. split; [done|]. split; [done|].
  assert (Hlen : (0 < inject_Z (Z.of_nat (length c)))%Q).
  { rewrite <- (Zlt_Qlt 0). destruct c; [done | cbn; lia]. }
  change (inject_Z 0) with 0%Q.
  apply Qmult_lt_0_compat; [|done]. by apply Qmult_lt_0_compat.
Qed.

Lemma overflow_hides_loud_blocks_witness :
  [16384; -16384; 8192] <> [] /\ (0 < 1 # 100)%Q /\
  Forall (fun x => (256 | x)) [16384; -16384; 8192] /\
  rms_below [16384; -16384; 8192] (1 # 100) = true.
Proof.
  assert (H1 : [16384; -16384; 8192] <> []) by done.
  assert (H2 : (0 < 1 # 100)%Q) by reflexivity.
  assert (H3 : Forall (fun x => (256 | x)) [16384; -16384; 8192]).
  { repeat constructor; [by exists 64 | by exists (-64) | by exists 32]. }
  split; [exact H1|]. split; [exact H2|]. split; [exact H3|].
  exact (proj2 (overflow_hides_loud_blocks _ _ H1 H2 H3)).
Defined.

End RecorderProps.

Module Recorder64Props.
Import Recorder Recorder64 StreamFacts Recorder64Facts.

(** X10: a recording that starts gives back what the callback buffered.
    When the callback stopped the stream, the buffer holds the blocks the
    device delivered up to and including the one at which the callback
    raised, which is the first at which it did; when it did not, the buffer
    holds every block and the callback raised at none.  The result is empty
    exactly when no block was delivered, and otherwise a 16-bit container
    with the recorder's channels and rate whose frames are the buffered
    blocks end to end. *)
Theorem capture_returns_the_buffer (self : AudioRecorder)
    (silence_threshold silence_duration min_duration : float) (required min : Z)
    (stream : list chunk) :
  required_silence_samples self silence_duration = Some required ->
  min_samples self min_duration = Some min ->
  exists a st stopped,
    record_with_silence_detection self silence_threshold silence_duration
      min_duration stream = Some (a, (st, stopped)) /\
    (stopped = true ->
     exists front c rest st0,
       stream = front ++ c :: rest /\
       audio_chunks st = front ++ [c] /\
       run_stream (callback silence_threshold required min) start front
         = (st0, false) /\
       callback silence_threshold required min st0 c = (st, true)) /\
    (stopped = false ->
     audio_chunks st = stream /\
     forall front c rest,
       stream = front ++ c :: rest ->
       snd (callback silence_threshold required min
              (fst (run_stream (callback silence_threshold required min)
                      start front)) c) = false) /\
    (a = NoAudio <-> stream = []) /\
    (stream <> [] ->
     a = Wav (channels self) 2 (sample_rate self) (concat (audio_chunks st))).
Proof.
  intros Hreq Hmin.
  unfold record_with_silence_detection. rewrite Hreq, Hmin.
  rewrite callback64_by_test.
  set (cb := callback_by (fun c => rms_below c silence_threshold) required min).
  destruct (run_stream cb start stream) as [st stopped] eqn:Hrun.
  assert (Hbuf : (stopped = true ->
                  exists front c rest st0,
                    stream = front ++ c :: rest /\
                    audio_chunks st = front ++ [c] /\
                    run_stream cb start front = (st0, false) /\
                    cb st0 c = (st, true)) /\
                 (stopped = false -> audio_chunks st = stream)).
  { split; intros ->.
    - apply run_stopped in Hrun as (front & c & rest & st0 & -> & Hf & Hc).
      exists front, c, rest, st0. split; [done|]. split; [|done].
      pose proof (by_chunks (fun c => rms_below c silence_threshold) required
                    min st0 c) as H.
      fold cb in H. rewrite Hc in H. cbn [fst] in H.
      by rewrite H, (run_by_unstopped_chunks _ _ _ _ _ _ Hf).
    - by rewrite (run_by_unstopped_chunks _ _ _ _ _ _ Hrun). }
  destruct Hbuf as [Hs Hu].
  assert (Hempty : audio_chunks st = [] <-> stream = []).
  { destruct stopped.
    - destruct Hs as (front & c & rest & st0 & -> & -> & _); [done|].
      split; intros H; by destruct front.
    - by rewrite Hu. }
  destruct (audio_chunks st) as [|c0 cs] eqn:Ech.
  - exists NoAudio, st, stopped. rewrite Ech in *.
    split; [done|]. split; [done|]. split.
    + intros ->. split; [by apply Hu|].
      intros front c rest ->. apply (run_unstopped_none cb _ _ _ _ _ Hrun).
    + split; [|intros H; destruct H; by apply Hempty].
      split; [intros _; by apply Hempty | done].
  - exists (_to_wav_bytes self (concat (c0 :: cs))), st, stopped. rewrite Ech in *.
    split; [done|]. split; [done|]. split.
    + intros ->. split; [by apply Hu|].
      intros front c rest ->. apply (run_unstopped_none cb _ _ _ _ _ Hrun).
    + split; [|done]. split; [done|]. intros H. by apply Hempty in H.
Qed.

Lemma capture_returns_the_buffer_witness :
  required_silence_samples recorder (literal 3 2) = Some 23 /\
  min_samples recorder (literal 1 1) = Some 15 /\
  exists a st stopped,
    record_with_silence_detection recorder (literal 1 100) (literal 3 2)
      (literal 1 1) [loud_block; quiet_block] = Some (a, (st, stopped)) /\
    (stopped = false -> audio_chunks st = [loud_block; quiet_block]).
Proof.
  assert (H1 : required_silence_samples recorder (literal 3 2) = Some 23)
    by (by vm_compute).
  assert (H2 : min_samples recorder (literal 1 1) = Some 15) by (by vm_compute).
  split; [exact H1|]. split; [exact H2|].
  destruct (capture_returns_the_buffer recorder (literal 1 100) (literal 3 2)
              (literal 1 1) 23 15 [loud_block; quiet_block] H1 H2)
    as (a & st & stopped & Hrec & _ & Hu & _).
  exists a, st, stopped. split; [exact Hrec|].
  intros H. exact (proj1 (Hu H)).
Defined.

End Recorder64Props.

(* ===================================================================== *)
(** * Further properties of the voices and of the registry               *)
(* ===================================================================== *)

Module VoiceProps.
Import TTS.

Lemma dict_get_In d k v : dict_get d k = Some v -> In (k, v) d.
Proof.
  induction d as [|[k' v'] d IH]; cbn; [done|].
  destruct (String.eqb k k') eqn:E.
  - apply String.eqb_eq in E as ->. intros [= ->]. by left.
  - intros H. right. by apply IH.
Qed.

Lemma dict_get_keys d k : In k (keys d) <-> exists v, dict_get d k = Some v.
Proof.
  induction d as [|[k' v'] d IH]; cbn.
  - split; [done | by intros [? ?]].
  - destruct (String.eqb k k') eqn:E.
    + apply String.eqb_eq in E as ->. split; [eauto | by left].
    + apply String.eqb_neq in E. rewrite <- IH. split; [|by right].
      intros [H|H]; [by destruct E | done].
Qed.

Lemma table_names :
  Forall (fun kv => snd kv = "aura-" +:+ fst kv +:+ "-en") AURA_VOICES.
Proof. repeat constructor. Qed.

(** X15: the voices the server advertises are exactly the ones
    [set_voice] accepts; an accepted voice selects the model the
    constructor selects for it, named aura-<voice>-en; every other
    selector raises. *)
Theorem advertised_voices_are_selectable (tts : DeepgramTTS) (voice : string) :
  (In voice Server.get_voices <->
   exists m, set_voice tts voice = Ok (MkTTS m)) /\
  (forall m, set_voice tts voice = Ok (MkTTS m) ->
     init voice = MkTTS m /\ m = "aura-" +:+ voice +:+ "-en") /\
  (~ In voice Server.get_voices <->
   exists msg, set_voice tts voice = Raise (ValueError msg)).
Proof.
  unfold Server.get_voices, set_voice, init.
  rewrite dict_get_keys.
  destruct (dict_get AURA_VOICES voice) as [m|] eqn:E.
  - split; [split; eauto|]. split.
    + intros m' [= <-]. split; [done|].
      apply dict_get_In in E.
      pose proof table_names as Ht. rewrite List.Forall_forall in Ht.
      exact (Ht _ E).
    + split; [intros H; destruct H; eauto | by intros [? ?]].
  - split; [split; [by intros [? ?] | by intros [? ?]]|]. split; [done|].
    split; [eauto | by intros _ [? ?]].
Qed.

(** X16: whatever selector is given, the model a synthesizer holds after
    construction or after a successful [set_voice], and so the model named
    in the request for a session's opening, is one of the models of the
    voice table. *)
Theorem model_is_always_in_table (voice : string) :
  In (model (init voice)) (map snd AURA_VOICES) /\
  (forall tts tts', set_voice tts voice = Ok tts' ->
     In (model tts') (map snd AURA_VOICES)) /\
  (forall name role opening_reply,
     In (rq_model (Server.start_interview_speaks
                     (Server.StartRequest name role voice) opening_reply))
        (map snd AURA_VOICES)).
Proof.
  assert (H : In (model (init voice)) (map snd AURA_VOICES)).
  { unfold init. destruct (dict_get AURA_VOICES voice) as [m|] eqn:E.
    - apply dict_get_In in E. apply in_map_iff. by exists (voice, m).
    - cbn. by left. }
  split; [done|]. split; [|done].
  intros tts tts'. unfold set_voice.
  destruct (dict_get AURA_VOICES voice) as [m|] eqn:E; [|done].
  intros [= <-]. apply dict_get_In in E. apply in_map_iff. by exists (voice, m).
Qed.

End VoiceProps.

Module RegistryProps.
Import Text TextFacts Server ServerFacts.

#[local] Arguments LLM.respond : simpl never.
#[local] Arguments LLM.start_interview : simpl never.
#[local] Arguments LLM.get_state : simpl never.
#[local] Arguments strip : simpl never.

Lemma respond_to_audio_other sessions sid sid' text reply audio :
  sid <> sid' ->
  fst (respond_to_audio sessions sid text reply audio) !! sid' = sessions !! sid'.
Proof.
  intros Hne. unfold respond_to_audio.
  destruct (sessions !! sid) as [session|]; [|done].
  destruct (truthy text); cbn [negb]; [|done].
  destruct (LLM.respond _ _ _). cbn [fst]. by rewrite lookup_insert_ne.
Qed.

Lemma start_interview_other sessions sid sid' request opening_reply audio :
  sid <> sid' ->
  fst (start_interview sessions sid request opening_reply audio) !! sid' =
  sessions !! sid'.
Proof.
  intros Hne. unfold start_interview.
  destruct (LLM.start_interview _ _ _ _). cbn [fst]. by rewrite lookup_insert_ne.
Qed.

Lemma submit_turns_cons sessions sid (t : turn) turns :
  submit_turns sessions sid (t :: turns) =
  submit_turns (fst (respond_to_audio sessions sid (fst (fst t)) (snd (fst t)) (snd t)))
               sid turns.
Proof. reflexivity. Qed.

Lemma respond_to_audio_known sessions sid session text reply audio :
  sessions !! sid = Some session ->
  fst (respond_to_audio sessions sid text reply audio) =
  if truthy text
  then <[ sid := {| llm := fst (LLM.respond (llm session) text reply);
                    tts := tts session;
                    candidate_name := candidate_name session;
                    role := role session;
                    transcript :=
                      transcript session
                      ++ [Message "candidate" text;
                          Message "interviewer" (strip reply)] |} ]> sessions
  else sessions.
Proof.
  intros Hs. unfold respond_to_audio. rewrite Hs.
  destruct (truthy text); cbn [negb]; [|done].
  destruct (LLM.respond _ _ _) as [l line] eqn:E.
  assert (line = strip reply) as -> by (by inversion E).
  cbn [fst]. by rewrite <- app_assoc.
Qed.

(** X17: requests for one session id leave every other session as it was:
    a turn, a start under another id and an end change nothing that a
    different id looks up, whole sequences of turns included. *)
Theorem sessions_are_isolated (sessions : registry) (sid sid' : string) :
  sid <> sid' ->
  (forall text reply audio,
     fst (respond_to_audio sessions sid text reply audio) !! sid' = sessions !! sid') /\
  (forall request opening_reply audio,
     fst (start_interview sessions sid request opening_reply audio) !! sid' =
     sessions !! sid') /\
  fst (end_interview sessions sid) !! sid' = sessions !! sid' /\
  (forall turns,
     submit_turns sessions sid turns !! sid' = sessions !! sid' /\
     get_interview_state (submit_turns sessions sid turns) sid' =
     get_interview_state sessions sid').
Proof.
  intros Hne. split; [intros; by apply respond_to_audio_other|].
  split; [intros; by apply start_interview_other|].
  split; [unfold end_interview; by destruct (sessions !! sid)|].
  intros turns.
  assert (H : submit_turns sessions sid turns !! sid' = sessions !! sid').
  { revert sessions. induction turns as [|t turns IH]; intros sessions; [done|].
    rewrite submit_turns_cons, IH. by apply respond_to_audio_other. }
  split; [done|]. unfold get_interview_state. by rewrite H.
Qed.

Lemma sessions_are_isolated_witness :
  "s1" <> "s2" /\
  fst (respond_to_audio one_session "s2" "Hello" "Hi." []) !! "s1" =
  one_session !! "s1".
Proof.
  assert (H : "s1" <> "s2") by done.
  split; [exact H|].
  exact (proj1 (sessions_are_isolated one_session "s2" "s1" (fun E => H (eq_sym E)))
           "Hello" "Hi." []).
Defined.

(** X18: a session can be read back as soon as it is started: the state
    in the answer of [start_interview] is the initial one (no turn taken,
    one topic opened, gathering, not complete) and [get_interview_state] on
    the new id returns that state with a transcript that holds the opening
    line alone. *)
Theorem start_then_get (sessions : registry) (sid : string)
    (request : InterviewStartRequest) (opening_reply : string) (audio_bytes : bytes) :
  let '(sessions', response) :=
    start_interview sessions sid request opening_reply audio_bytes in
  session_id response = sid /\
  opening_message response = strip opening_reply /\
  opening_audio response = audio_bytes /\
  state response = LLM.StateView 0 1 "gathering_info" false false /\
  get_interview_state sessions' sid =
    Ok (state response, [Message "interviewer" (opening_message response)]).
Proof.
  pose proof (start_interview_lookup sessions sid request opening_reply
                audio_bytes) as Hl.
  unfold get_interview_state.
  destruct (start_interview _ _ _ _ _) as [sessions' response] eqn:E.
  cbn [fst] in Hl. rewrite Hl. cbn [llm transcript].
  unfold start_interview in E.
  by injection E as <- <-.
Qed.

(** X19: the answer to a turn agrees with what the registry then holds:
    for a known session and a transcription that is not empty the turn
    succeeds, returns the transcription, the stripped reply and the
    synthesized audio, and a following [get_interview_state] shows the
    state of the answer and the transcript grown by the candidate's and the
    interviewer's entries. *)
Theorem turn_answer_matches_registry (sessions : registry) (sid : string)
    (session : session) (text reply : string) (response_audio : bytes) :
  sessions !! sid = Some session -> text <> "" ->
  let '(sessions', r) :=
    respond_to_audio sessions sid text reply response_audio in
  exists answer,
    r = Ok answer /\
    candidate_transcript answer = text /\
    interviewer_response answer = strip reply /\
    audio answer = response_audio /\
    LLM.sv_question_count (rs_state answer) =
      LLM.question_count (llm session) + 1 /\
    get_interview_state sessions' sid =
      Ok (rs_state answer,
          transcript session
          ++ [Message "candidate" text; Message "interviewer" (strip reply)]).
Proof.
  intros Hs Ht. unfold respond_to_audio, get_interview_state. rewrite Hs.
  apply AgentFacts.truthy_spec in Ht. rewrite Ht. cbn [negb].
  pose proof (LLMFacts.respond_question_count (llm session) text reply) as Hq.
  destruct (LLM.respond _ _ _) as [l line] eqn:E.
  assert (line = strip reply) as -> by (by inversion E).
  cbn [fst] in Hq. eexists. split; [done|]. cbn.
  rewrite lookup_insert_eq. cbn. repeat split; try done.
  by rewrite <- app_assoc.
Qed.

Lemma turn_answer_matches_registry_witness :
  (exists session, one_session !! "s1" = Some session) /\
  "I build payment services." <> "" /\
  exists answer,
    snd (respond_to_audio one_session "s1" "I build payment services."
           "Which database was that?" [82; 73; 70; 70]) = Ok answer /\
    interviewer_response answer = "Which database was that?".
Proof.
  pose proof (start_interview_lookup ∅ "s1"
                (StartRequest "Alex" "Backend Engineer" "asteria")
                "Hi Alex, good to meet you. Tell me about your background?" [])
    as Hs.
  fold one_session in Hs.
  assert (Ht : "I build payment services." <> "") by done.
  split; [eauto|]. split; [exact Ht|].
  pose proof (turn_answer_matches_registry one_session "s1" _
                "I build payment services." "Which database was that?"
                [82; 73; 70; 70] Hs Ht) as H.
  destruct (respond_to_audio _ _ _ _ _) as [sessions' r].
  destruct H as (answer & -> & _ & Hi & _). by exists answer.
Defined.

(** X20: no request removes a session: a turn, a sequence of turns and an
    end leave the set of session ids as it was, and a start adds its id to
    it. *)
Theorem no_request_removes_a_session (sessions : registry) (sid : string) :
  (forall text reply audio,
     dom (fst (respond_to_audio sessions sid text reply audio)) = dom sessions) /\
  dom (fst (end_interview sessions sid)) = dom sessions /\
  (forall turns, dom (submit_turns sessions sid turns) = dom sessions) /\
  (forall request opening_reply audio,
     dom (fst (start_interview sessions sid request opening_reply audio)) =
     {[sid]} ∪ dom sessions).
Proof.
  assert (H : forall s text reply audio,
    dom (fst (respond_to_audio s sid text reply audio)) = dom s).
  { intros s text reply audio. unfold respond_to_audio.
    destruct (s !! sid) as [session|] eqn:E; [|done].
    destruct (truthy text); cbn [negb]; [|done].
    destruct (LLM.respond _ _ _). cbn [fst]. rewrite dom_insert_L.
    apply subseteq_union_1_L, singleton_subseteq_l, elem_of_dom. eauto. }
  split; [apply H|].
  split; [unfold end_interview; by destruct (sessions !! sid)|].
  split.
  - intros turns. revert sessions.
    induction turns as [|t turns IH]; intros sessions; [done|].
    by rewrite submit_turns_cons, IH, H.
  - intros request o a. unfold start_interview.
    destruct (LLM.start_interview _ _ _ _). cbn [fst]. by rewrite dom_insert_L.
Qed.

Lemma mirror_user text : mirror (Message "user" text) = Message "candidate" text.
Proof. reflexivity. Qed.

Lemma mirror_assistant text :
  mirror (Message "assistant" text) = Message "interviewer" (strip text).
Proof. reflexivity. Qed.

Lemma submit_turns_session (sid : string) (turns : list turn) :
  forall (sessions : registry) (session : session),
  sessions !! sid = Some session ->
  exists session',
    submit_turns sessions sid turns !! sid = Some session' /\
    llm session' =
      LLM.respond_all (llm session)
        (map (fun t : turn => (fst (fst t), snd (fst t)))
             (List.filter (fun t : turn => truthy (fst (fst t))) turns)) /\
    (transcript session = map mirror (LLM.conversation_history (llm session)) ->
     transcript session' = map mirror (LLM.conversation_history (llm session'))) /\
    candidate_name session' = candidate_name session /\
    role session' = role session /\
    tts session' = tts session.
Proof.
  induction turns as [|[[text reply] audio] turns IH]; intros sessions session Hs.
  - exists session. by cbn.
  - rewrite submit_turns_cons. cbn [fst snd List.filter].
    rewrite (respond_to_audio_known _ _ _ _ _ _ Hs).
    destruct (truthy text) eqn:Et.
    + pose proof (LLMFacts.respond_history (llm session) text reply) as Hh.
      edestruct IH as (session' & Hl & Hm & Hmir & Hn & Hr & Ht);
        [apply lookup_insert_eq|].
      cbn [llm transcript candidate_name role tts] in *.
      exists session'. split; [done|]. split; [by rewrite Hm|].
      split; [|done]. intros Hinit. apply Hmir.
      cbn [llm transcript]. by rewrite Hh, Hinit, map_app.
    + by apply IH.
Qed.

(** ** Requests whose remote calls may raise *)

Lemma submit_attempts_cons sessions sid (r : request_attempt) requests :
  submit_attempts sessions sid (r :: requests) =
  submit_attempts
    (fst (respond_to_audio_attempt sessions sid (fst (fst r)) (snd (fst r)) (snd r)))
    sid requests.
Proof. reflexivity. Qed.

(** What a request leaves of a session that exists, whatever raised. *)
Lemma respond_to_audio_attempt_known sessions sid session text o audio :
  sessions !! sid = Some session ->
  fst (respond_to_audio_attempt sessions sid text o audio) =
  match text with
  | Some text =>
      if truthy text
      then <[ sid := {| llm := LLM.respond_attempt (llm session) (text, o);
                        tts := tts session;
                        candidate_name := candidate_name session;
                        role := role session;
                        transcript :=
                          transcript session
                          ++ Message "candidate" text
                             :: match o with
                                | LLM.Returned reply =>
                                    [Message "interviewer" (strip reply)]
                                | LLM.Raised => []
                                end |} ]> sessions
      else sessions
  | None => sessions
  end.
Proof.
  intros Hs. unfold respond_to_audio_attempt. rewrite Hs.
  destruct text as [text|]; [|done].
  destruct (truthy text); cbn [negb]; [|done].
  destruct o as [reply|]; [|done].
  unfold LLM.respond_attempt. cbn [fst snd].
  destruct (LLM.respond _ _ _) as [l line] eqn:E.
  assert (line = strip reply) as -> by (by inversion E).
  rewrite <- app_assoc. by destruct audio.
Qed.

Lemma reached_cons text o audio requests :
  reached ((text, o, audio) :: requests) =
  match text with
  | Some t => if truthy t then (t, o) :: reached requests else reached requests
  | None => reached requests
  end.
Proof. by destruct text. Qed.

Lemma submit_attempts_session (sid : string) (requests : list request_attempt) :
  forall (sessions : registry) (session : session),
  sessions !! sid = Some session ->
  exists session',
    submit_attempts sessions sid requests !! sid = Some session' /\
    llm session' = LLM.respond_attempts (llm session) (reached requests) /\
    (transcript session = map mirror (LLM.conversation_history (llm session)) ->
     transcript session' = map mirror (LLM.conversation_history (llm session'))) /\
    candidate_name session' = candidate_name session /\
    role session' = role session /\
    tts session' = tts session.
Proof.
  induction requests as [|[[text o] audio] requests IH]; intros sessions session Hs.
  - exists session. by cbn.
  - rewrite submit_attempts_cons. cbn [fst snd].
    rewrite (respond_to_audio_attempt_known _ _ _ _ _ _ Hs).
    rewrite reached_cons.
    destruct text as [text|]; [|by apply IH].
    destruct (truthy text) eqn:Et; [|by apply IH].
    pose proof (LLMFacts.respond_attempt_history (llm session) (text, o)) as Hh.
    edestruct IH as (session' & Hl & Hm & Hmir & Hn & Hr & Ht);
      [apply lookup_insert_eq|].
    cbn [llm transcript candidate_name role tts] in *.
    exists session'. split; [done|].
    split; [by rewrite Hm, LLMFacts.respond_attempts_cons|].
    split; [|done]. intros Hinit. apply Hmir.
    cbn [llm transcript fst snd] in *. rewrite Hh, Hinit, map_app.
    by destruct o.
Qed.

(** X21: a session of the registry follows the state machine, whatever
    raises.  After a [start_interview] that returned and any sequence of
    [respond_to_audio] requests for it, each one answered, refused for an
    empty transcription, or cut short by a remote call that raised, the
    session is still there; its state machine is the one [start_interview]
    and one [respond] for each request with a non-empty transcription
    produce, in order, a [respond] whose chat request raised included as
    such (requests that fail before, or are refused, leave no trace, and a
    synthesis that raises undoes nothing); its transcript is its chat
    history entry for entry, assistant as interviewer with the text
    stripped and user as candidate; and candidate name, role and voice stay
    as given at the start.  Requests that all returned are the turns of
    [respond_to_audio]. *)
Theorem sessions_follow_the_state_machine (sessions : registry) (sid : string)
    (request : InterviewStartRequest) (opening_reply : string)
    (audio_bytes : bytes) (requests : list request_attempt) :
  (exists session,
     submit_attempts
       (fst (start_interview sessions sid request opening_reply audio_bytes))
       sid requests !! sid = Some session /\
     llm session =
       LLM.respond_attempts
         (fst (LLM.start_interview LLM.init (rq_candidate_name request)
                 (rq_role request) opening_reply))
         (reached requests) /\
     transcript session = map mirror (LLM.conversation_history (llm session)) /\
     candidate_name session = rq_candidate_name request /\
     role session = rq_role request /\
     tts session = TTS.init (rq_voice request)) /\
  (forall s text reply audio,
     respond_to_audio_attempt s sid (Some text) (LLM.Returned reply) (Some audio) =
     respond_to_audio s sid text reply audio) /\
  (forall s turns,
     submit_attempts s sid (map returned turns) = submit_turns s sid turns).
Proof.
  assert (Hsame : forall s text reply audio,
    respond_to_audio_attempt s sid (Some text) (LLM.Returned reply) (Some audio) =
    respond_to_audio s sid text reply audio).
  { intros s text reply audio. unfold respond_to_audio_attempt, respond_to_audio.
    destruct (s !! sid); [|done]. destruct (truthy text); cbn [negb]; [|done].
    by destruct (LLM.respond _ _ _). }
  split; [|split; [exact Hsame|]].
  - pose proof (start_interview_lookup sessions sid request opening_reply
                  audio_bytes) as Hs.
    destruct (submit_attempts_session sid requests _ _ Hs)
      as (session' & Hl & Hm & Hmir & Hn & Hr & Ht).
    exists session'. cbn [llm transcript candidate_name role tts] in *.
    split; [done|]. split; [done|]. split; [|done].
    by apply Hmir.
  - intros s turns. revert s.
    induction turns as [|[[text reply] audio] turns IH]; intros s; [done|].
    cbn [map]. rewrite submit_attempts_cons, submit_turns_cons.
    unfold returned at 1 2 3. cbn [fst snd]. by rewrite Hsame, IH.
Qed.

End RegistryProps.

(* ===================================================================== *)
(** * Further properties of the interactive loop                         *)
(* ===================================================================== *)

Module LoopProps.
Import Text TextFacts Agent AgentFacts.

#[local] Arguments LLM.respond : simpl never.
#[local] Arguments LLM.start_interview : simpl never.
#[local] Arguments strip : simpl never.
#[local] Arguments any_in : simpl never.

(** One pass of the loop, whatever it hears: the transcript grows by an
    interviewer line, after the candidate's entry if there is one; the
    state machine is either untouched or advanced by one [respond]. *)
Lemma loop_body_shape self inp :
  exists pre line l,
    fst (loop_body self inp) =
      MkAgent l (tts self) (running self)
        (transcript self ++ pre ++ [Message "interviewer" line]) /\
    (pre = [] \/ pre = [Message "candidate" (heard inp)]) /\
    (l = llm self \/
     (l = fst (LLM.respond (llm self) (heard inp) (reply inp)) /\
      heard inp <> "" /\
      any_in exit_commands (lower (heard inp)) = false /\
      snd (loop_body self inp) = Continue)).
Proof.
  destruct inp as [a text r]. unfold loop_body, speak, set_llm, set_transcript.
  cbn [audio_bytes heard reply].
  destruct a as [|n w f frames]; unfold listen, set_transcript.
  - exists [], repeat_line, (llm self). cbn. eauto.
  - destruct (truthy text) eqn:Et; cbn [negb].
    + destruct (any_in exit_commands (lower text)) eqn:Ee.
      * exists [Message "candidate" text], concluding_line, (llm self).
        cbn. rewrite <- ?app_assoc. eauto.
      * pose proof (StateMachineProps.respond_text (llm self) text r) as Hr.
        destruct (LLM.respond (llm self) text r) as [l line] eqn:E.
        cbn [snd] in Hr. subst line.
        exists [Message "candidate" text], (strip r), l.
        cbn. rewrite ?E, <- ?app_assoc. split; [done|]. split; [by right|].
        right. split; [done|]. split; [by apply truthy_spec|]. done.
    + exists [Message "candidate" text], repeat_line, (llm self).
      cbn. rewrite <- ?app_assoc. eauto.
Qed.

Lemma interview_loop_shape self inputs :
  exists added calls,
    interview_loop self inputs =
      MkAgent (LLM.respond_all (llm self) calls) (tts self) (running self)
        (transcript self ++ added) /\
    (added = [] \/ exists front line,
                     added = front ++ [Message "interviewer" line]) /\
    (length added <= 2 * length inputs)%nat /\
    calls `sublist_of` map (fun i => (heard i, reply i)) inputs /\
    Forall (fun c : LLM.call =>
              fst c <> "" /\ any_in exit_commands (lower (fst c)) = false) calls.
Proof.
  revert self. induction inputs as [|inp inputs IH]; intros self.
  - exists [], []. cbn. rewrite app_nil_r. by destruct self; eauto 10.
  - cbn [interview_loop].
    destruct (running self && negb (LLM.is_interview_complete (llm self))).
    2:{ exists [], []. cbn. rewrite app_nil_r.
        split; [by destruct self|]. split; [by left|]. split; [lia|].
        split; [apply sublist_nil_l | done]. }
    destruct (loop_body_shape self inp) as (pre & line & l & Hb & Hpre & Hl).
    destruct (loop_body self inp) as [self1 f]. cbn [fst snd] in *. subst self1.
    assert (Hlen : (length (pre ++ [Message "interviewer" line]) <= 2)%nat)
      by (rewrite length_app; destruct Hpre as [-> | ->]; cbn; lia).
    destruct f.
    + destruct (IH (MkAgent l (tts self) (running self)
                      (transcript self ++ pre ++ [Message "interviewer" line])))
        as (added & calls & -> & Hlast & Hn & Hsub & Hall).
      cbn [llm tts running transcript] in *.
      destruct Hl as [-> | (-> & Hne & Hex & _)].
      * exists ((pre ++ [Message "interviewer" line]) ++ added), calls.
        rewrite <- !app_assoc. split; [done|]. split.
        { right. destruct Hlast as [-> | (front & line' & ->)].
          - exists pre, line. by rewrite app_nil_r.
          - exists (pre ++ [Message "interviewer" line] ++ front), line'.
            by rewrite <- !app_assoc. }
        split; [rewrite !length_app in *; cbn [length] in *; lia|].
        split; [by apply sublist_cons | done].
      * exists ((pre ++ [Message "interviewer" line]) ++ added),
               ((heard inp, reply inp) :: calls).
        rewrite <- !app_assoc. split; [done|]. split.
        { right. destruct Hlast as [-> | (front & line' & ->)].
          - exists pre, line. by rewrite app_nil_r.
          - exists (pre ++ [Message "interviewer" line] ++ front), line'.
            by rewrite <- !app_assoc. }
        split; [rewrite !length_app in *; cbn [length] in *; lia|].
        split; [by apply sublist_skip | by constructor].
    + destruct Hl as [-> | (_ & _ & _ & Hc)]; [|done].
      exists (pre ++ [Message "interviewer" line]), [].
      split; [done|]. split; [right; by exists pre, line|].
      split; [cbn [length] in *; lia|].
      split; [apply sublist_nil_l | done].
Qed.

(** X22: passes that run to their end only append to the transcript.
    After any number of them, the loop being left by its test, by an exit
    phrase or by the operator's interrupt between two passes, the entries
    the loop started with are still there, in place, at most two entries
    are added per pass, the last entry added is an interviewer line, and
    the voice and the running flag are not touched. *)
Theorem loop_only_appends (self : InterviewAgent) (inputs : list turn_input) :
  let self' := interview_loop self inputs in
  exists added,
    transcript self' = transcript self ++ added /\
    (added = [] \/
     exists front line, added = front ++ [Message "interviewer" line]) /\
    (length added <= 2 * length inputs)%nat /\
    tts self' = tts self /\ running self' = running self.
Proof.
  cbn zeta.
  destruct (interview_loop_shape self inputs)
    as (added & calls & -> & Hlast & Hn & _ & _).
  by exists added.
Qed.

(** X23: a [run_interview] whose opening and passes run to their end
    returns the transcript it leaves in the agent, with the running flag
    off; the transcript starts with the interviewer's opening (the first
    reply, stripped) and ends with an interviewer line, whatever the agent
    held before, and whether the loop was left by its test, by an exit
    phrase or by the operator's interrupt between two passes. *)
Theorem run_interview_transcript (self : InterviewAgent)
    (candidate_name role opening_reply : string) (inputs : list turn_input) :
  let '(self', t) :=
    run_interview self candidate_name role opening_reply inputs in
  running self' = false /\ t = transcript self' /\ tts self' = tts self /\
  (exists rest, t = Message "interviewer" (strip opening_reply) :: rest) /\
  (exists front line, t = front ++ [Message "interviewer" line]).
Proof.
  unfold run_interview.
  destruct (interview_loop_shape
              (open_interview self candidate_name role opening_reply) inputs)
    as (added & calls & -> & Hlast & _).
  cbn [set_running running transcript tts llm].
  change (transcript (open_interview self candidate_name role opening_reply))
    with [Message "interviewer" (strip opening_reply)].
  change (tts (open_interview self candidate_name role opening_reply))
    with (tts self).
  split; [done|]. split; [done|]. split; [done|]. split; [by eexists|].
  destruct Hlast as [-> | (front & line & ->)].
  - by exists [], (strip opening_reply).
  - exists (Message "interviewer" (strip opening_reply) :: front), line.
    done.
Qed.

(** X24: passes that run to their end drive the state machine through
    [start_interview] and [respond] only: at the end of a [run_interview]
    whose opening and passes run to their end, the agent's state machine is
    the one obtained from [start_interview] by [respond] calls that
    returned, taken in order from the passes (transcription and reply),
    each with a transcription that is neither empty nor an exit command. *)
Theorem loop_follows_the_state_machine (self : InterviewAgent)
    (candidate_name role opening_reply : string) (inputs : list turn_input) :
  exists calls,
    llm (fst (run_interview self candidate_name role opening_reply inputs)) =
      LLM.respond_all
        (fst (LLM.start_interview (llm self) candidate_name role opening_reply))
        calls /\
    calls `sublist_of` map (fun i => (heard i, reply i)) inputs /\
    Forall (fun c : LLM.call =>
              fst c <> "" /\ any_in exit_commands (lower (fst c)) = false) calls.
Proof.
  unfold run_interview.
  destruct (interview_loop_shape
              (open_interview self candidate_name role opening_reply) inputs)
    as (added & calls & -> & _ & _ & Hsub & Hall).
  exists calls. by cbn.
Qed.

(** X25: while the interview is running and not complete, passes whose
    recording is empty do nothing but ask again: after any number of them
    the transcript has grown by that many requests to repeat and nothing
    else in the agent has changed. *)
Theorem empty_captures_only_reprompt (self : InterviewAgent)
    (inputs : list turn_input) :
  running self = true -> LLM.is_interview_complete (llm self) = false ->
  Forall (fun i => audio_bytes i = Recorder.NoAudio) inputs ->
  interview_loop self inputs =
  set_transcript
    (transcript self
     ++ repeat (Message "interviewer" repeat_line) (length inputs)) self.
Proof.
  intros Hr Hc Hall. revert self Hr Hc.
  induction Hall as [|[a text r] inputs Ha _ IH]; intros self Hr Hc.
  - cbn. rewrite app_nil_r. by destruct self.
  - cbn in Ha. subst a. cbn [interview_loop]. rewrite Hr, Hc. cbn [andb negb].
    unfold loop_body. cbn [audio_bytes heard reply listen truthy negb].
    rewrite IH by done. unfold speak, set_transcript. cbn.
    by rewrite <- app_assoc.
Qed.

Lemma empty_captures_only_reprompt_witness :
  running opened = true /\ LLM.is_interview_complete (llm opened) = false /\
  transcript
    (interview_loop opened
       [TurnInput Recorder.NoAudio "" ""; TurnInput Recorder.NoAudio "" ""]) =
  transcript opened
  ++ [Message "interviewer" repeat_line; Message "interviewer" repeat_line].
Proof.
  assert (H1 : running opened = true) by reflexivity.
  assert (H2 : LLM.is_interview_complete (llm opened) = false) by reflexivity.
  split; [exact H1|]. split; [exact H2|].
  rewrite (empty_captures_only_reprompt opened
             [TurnInput Recorder.NoAudio "" ""; TurnInput Recorder.NoAudio "" ""]
             H1 H2).
  - reflexivity.
  - by repeat constructor.
Defined.

(** X26: a turn whose reply closes the interview is the last one: when the
    candidate is heard, says no exit command, and the reply contains an
    ending phrase, the loop records the two entries, the interview is
    complete, and the inputs that follow are not consumed. *)
Theorem closing_reply_ends_the_loop (self : InterviewAgent)
    (inp : turn_input) (rest : list turn_input) :
  running self = true -> LLM.is_interview_complete (llm self) = false ->
  audio_bytes inp <> Recorder.NoAudio -> heard inp <> "" ->
  any_in exit_commands (lower (heard inp)) = false ->
  LLM.closes_interview (reply inp) = true ->
  let self' := interview_loop self (inp :: rest) in
  self' = fst (loop_body self inp) /\
  LLM.is_interview_complete (llm self') = true /\
  llm self' = fst (LLM.respond (llm self) (heard inp) (reply inp)) /\
  transcript self' =
    transcript self
    ++ [Message "candidate" (heard inp);
        Message "interviewer" (strip (reply inp))].
Proof.
  intros Hr Hc Ha Ht He Hclose. cbn zeta.
  cbn [interview_loop]. rewrite Hr, Hc. cbn [andb negb].
  destruct inp as [a text r]. cbn [audio_bytes heard reply] in *.
  unfold loop_body. cbn [audio_bytes heard reply].
  rewrite listen_heard by done. apply truthy_spec in Ht. rewrite Ht, He.
  cbn [negb].
  pose proof (LLMFacts.respond_satisfied (llm self) text r) as Hs.
  pose proof (StateMachineProps.respond_text (llm self) text r) as Htext.
  destruct (LLM.respond _ _ _) as [l line]. cbn [fst snd] in *. subst line.
  rewrite Hclose, orb_true_r in Hs.
  assert (Hend : forall s, LLM.is_interview_complete (llm s) = true ->
                           interview_loop s rest = s).
  { intros s H. destruct rest; [done|]. cbn [interview_loop].
    by rewrite H, andb_false_r. }
  rewrite Hend by done. cbn [fst].
  unfold speak, set_llm, set_transcript. cbn.
  by rewrite <- app_assoc.
Qed.

Lemma closing_reply_ends_the_loop_witness :
  running opened = true /\
  a_recording <> Recorder.NoAudio /\
  LLM.closes_interview "Thank you for your time, Alex." = true /\
  transcript
    (interview_loop opened
       [TurnInput a_recording "I build payment services."
          "Thank you for your time, Alex.";
        TurnInput a_recording "One more thing." "Sure."]) =
  transcript opened
  ++ [Message "candidate" "I build payment services.";
      Message "interviewer" "Thank you for your time, Alex."].
Proof.
  assert (H1 : running opened = true) by reflexivity.
  assert (H2 : a_recording <> Recorder.NoAudio) by done.
  assert (H3 : LLM.closes_interview "Thank you for your time, Alex." = true)
    by reflexivity.
  split; [exact H1|]. split; [exact H2|]. split; [exact H3|].
  exact (proj2 (proj2 (proj2
           (closing_reply_ends_the_loop opened
              (TurnInput a_recording "I build payment services."
                 "Thank you for your time, Alex.")
              [TurnInput a_recording "One more thing." "Sure."]
              H1 eq_refl H2 ltac:(done) eq_refl H3)))).
Defined.

End LoopProps.
